(** * cc-site-client: event queue, delivery engine, identity and privacy gate

    A shallow embedding of the analytics core of [src/cc-site-client.js]
    (the three copies of the script in that file share this core verbatim):
    the [ls] wrapper around [localStorage], [uuid], the privacy gates
    ([dnt], [hasConsent], [readyToTrack]), the identity functions
    ([getVisitorId], [getSessionId], [touchSession]), the referrer trail,
    [baseEvent], [enqueue], [flush] with its asynchronous fallback request,
    and the two public [track] entry points; further on, [clamp],
    [escapeHTML], [parseQuery] with the [utm] object, [currentCtx],
    [trackPageview] and the route-change handler [onChange].

    Modelling conventions.
    - The page is single threaded.  Every synchronous call of the script is a
      function from the script's state to its new state; what the host
      environment shows the script during that call (clock, do-not-track
      indicators, page context, which platform APIs exist) is a separate
      record [Env], so that two calls can see two different environments.
    - [Date.now()] is an integer number of milliseconds and is constant during
      one synchronous call of a function of the core; no theorem compares
      two readings taken within one call.  [onChange], whose session
      logic depends on the time between two readings, takes the platform at
      each of them.
    - [Math.random()*16|0] is read from an oracle [entropy] with a cursor.
    - [localStorage] is a finite map from keys to the values the script
      stores there with [JSON.stringify] (a boolean, a string, a session
      object, an array of strings); serialisation itself is not modelled.
    - The body of a request is the batch of records it carries.
    - A call that ends with a JavaScript exception returns [Thrown]. *)

From Stdlib Require Import ZArith Lia Ascii String.
From stdpp Require Import gmap strings list fin_maps pretty.

Local Open Scope Z_scope.
Local Open Scope string_scope.
Local Open Scope list_scope.

Set Warnings "-register-all".

(** ** JavaScript values *)

(** Values a producer may pass as an event payload. *)
Inductive JsValue : Type :=
| JUndefined
| JNull
| JBool (b : bool)
| JNum (n : Z)
| JStr (s : string)
| JArr (items : list JsValue)
| JObj (fields : list (string * JsValue)).

(** [!!v] *)
Definition truthy (v : JsValue) : bool :=
  match v with
  | JUndefined | JNull => false
  | JBool b => b
  | JNum n => negb (Z.eqb n 0)
  | JStr s => negb (String.eqb s "")
  | JArr _ | JObj _ => true
  end.

(** [typeof v === 'object'] ([null] and arrays included, as in JavaScript). *)
Definition typeof_object (v : JsValue) : bool :=
  match v with
  | JNull | JArr _ | JObj _ => true
  | _ => false
  end.

(** [!!s] for a string. *)
Definition nonempty (s : string) : bool := negb (String.eqb s "").

(** ** Configuration *)

Record Config := {
  siteId : string;
  endpoint : string;
  consentRequired : bool;
  sessionTimeoutMs : Z;
  maxBatch : Z
}.

(** ** Stored values and the [ls] wrapper *)

(** The object stored under [cc_sid]: [{ id, started, last }]. *)
Record Session := {
  s_id : string;
  s_started : Z;
  s_last : Z
}.

Inductive Stored : Type :=
| SBool (b : bool)
| SStr (s : string)
| SSession (s : Session)
| STrail (l : list string).

(** [!!v] for a value read back from storage (objects and arrays are truthy). *)
Definition stored_truthy (v : Stored) : bool :=
  match v with
  | SBool b => b
  | SStr s => nonempty s
  | SSession _ | STrail _ => true
  end.

Definition VID_KEY : string := "cc_vid".
Definition SID_KEY : string := "cc_sid".
Definition REF_KEY : string := "cc_ref".
Definition CONSENT_KEY : string := "cc_consent_granted".

(** ** The host environment seen by one synchronous call *)

Inductive Beacon : Type :=
| BeaconMissing                     (* N.sendBeacon is undefined *)
| BeaconReturns (accepted : bool)   (* N.sendBeacon(...) returns this *)
| BeaconThrows.                     (* N.sendBeacon(...) throws *)

Record Env := {
  clock : Z;                         (* Date.now() *)
  entropy : nat -> Z;                (* successive Math.random()*16|0 *)
  nav_doNotTrack : option string;    (* N.doNotTrack *)
  nav_msDoNotTrack : option string;  (* N.msDoNotTrack *)
  win_doNotTrack : option string;    (* W.doNotTrack *)
  ls_ok : bool;                      (* localStorage calls do not throw *)
  href : string;                     (* L.href *)
  pathname : string;                 (* L.pathname *)
  title : string;                    (* D.title *)
  referrer : string;                 (* D.referrer *)
  language : string;                 (* N.language *)
  has_Intl : bool;                   (* the Intl global exists *)
  timeZone : string;                 (* ...resolvedOptions().timeZone *)
  innerWidth : Z; innerHeight : Z;   (* W.innerWidth, W.innerHeight *)
  scrollX : Z; scrollY : Z;          (* W.scrollX, W.scrollY *)
  beacon : Beacon;
  has_Blob : bool;                   (* the Blob global exists *)
  has_fetch : bool                   (* the fetch global exists *)
}.

(** ** Event records and the script's state *)

Record EventRecord := {
  ev_t : string;
  ev_ts : Z;
  ev_sid : string;
  ev_vid : Stored;
  ev_site : string;
  ev_url : string;
  ev_path : string;
  ev_title : string;
  ev_ref : option string;
  ev_lang : string;
  ev_tz : option string;
  ev_vp : Z * Z;
  ev_sc : Z * Z;
  ev_utm : list (string * string);
  ev_trail : list string;
  ev_payload : JsValue
}.

(** What left the page: a batch handed to [sendBeacon] and accepted, or a
    [fetch] POST that was issued. *)
Inductive Request : Type :=
| Beaconed (batch : list EventRecord)
| Posted (batch : list EventRecord).

(** How a pending [fetch] promise settles: it rejects (network error), or it
    resolves with a response of some HTTP status. *)
Inductive FetchOutcome : Type :=
| NetworkError
| Response (status : Z).

Record State := {
  cfg : Config;
  dnt : bool;                            (* const dnt, computed at load *)
  utm : list (string * string);          (* const utm, computed at load *)
  refTrail : list string;                (* const refTrail (array) *)
  queue : list EventRecord;              (* state.queue *)
  flushing : bool;                       (* state.flushing *)
  storage : gmap string Stored;          (* localStorage *)
  drawn : nat;                           (* Math.random() calls so far *)
  pending : list (list EventRecord);     (* batches of unsettled fetches *)
  wire : list Request;                   (* requests sent, oldest first *)
  timers : nat                           (* setTimeout(flush, 250) pending *)
}.

Definition set_queue (q : list EventRecord) (st : State) : State :=
  {| cfg := cfg st; dnt := dnt st; utm := utm st; refTrail := refTrail st;
     queue := q; flushing := flushing st; storage := storage st;
     drawn := drawn st; pending := pending st; wire := wire st;
     timers := timers st |}.

Definition set_flushing (b : bool) (st : State) : State :=
  {| cfg := cfg st; dnt := dnt st; utm := utm st; refTrail := refTrail st;
     queue := queue st; flushing := b; storage := storage st;
     drawn := drawn st; pending := pending st; wire := wire st;
     timers := timers st |}.

Definition set_storage (m : gmap string Stored) (st : State) : State :=
  {| cfg := cfg st; dnt := dnt st; utm := utm st; refTrail := refTrail st;
     queue := queue st; flushing := flushing st; storage := m;
     drawn := drawn st; pending := pending st; wire := wire st;
     timers := timers st |}.

Definition set_drawn (n : nat) (st : State) : State :=
  {| cfg := cfg st; dnt := dnt st; utm := utm st; refTrail := refTrail st;
     queue := queue st; flushing := flushing st; storage := storage st;
     drawn := n; pending := pending st; wire := wire st;
     timers := timers st |}.

Definition set_pending (p : list (list EventRecord)) (st : State) : State :=
  {| cfg := cfg st; dnt := dnt st; utm := utm st; refTrail := refTrail st;
     queue := queue st; flushing := flushing st; storage := storage st;
     drawn := drawn st; pending := p; wire := wire st;
     timers := timers st |}.

Definition set_wire (w : list Request) (st : State) : State :=
  {| cfg := cfg st; dnt := dnt st; utm := utm st; refTrail := refTrail st;
     queue := queue st; flushing := flushing st; storage := storage st;
     drawn := drawn st; pending := pending st; wire := w;
     timers := timers st |}.

Definition set_timers (n : nat) (st : State) : State :=
  {| cfg := cfg st; dnt := dnt st; utm := utm st; refTrail := refTrail st;
     queue := queue st; flushing := flushing st; storage := storage st;
     drawn := drawn st; pending := pending st; wire := wire st;
     timers := n |}.

(** A synchronous call either returns or ends with an exception. *)
Inductive JsError : Type :=
| ReferenceError (name : string).

Inductive Result : Type :=
| Done
| Thrown (e : JsError).

(** ** Small utils *)

(** [const now = ()=> Date.now()] *)
Definition now (env : Env) : Z := clock env.

(** [v.toString(16)] for the one-digit values [uuid] produces. *)
Definition toString16 (v : Z) : string :=
  match v with
  | 0 => "0" | 1 => "1" | 2 => "2" | 3 => "3"
  | 4 => "4" | 5 => "5" | 6 => "6" | 7 => "7"
  | 8 => "8" | 9 => "9" | 10 => "a" | 11 => "b"
  | 12 => "c" | 13 => "d" | 14 => "e" | _ => "f"
  end.

(** The callback of [replace(/[xy]/g, c => ...)] applied along the template:
    every [x] or [y] consumes one random value, other characters are kept. *)
Fixpoint uuid_replace (tmpl : string) (rnd : nat -> Z) (i : nat) : string * nat :=
  match tmpl with
  | EmptyString => (EmptyString, i)
  | String c rest =>
      if Ascii.eqb c "x"%char then
        let r := rnd i in
        let '(out, j) := uuid_replace rest rnd (S i) in
        ((toString16 r ++ out)%string, j)
      else if Ascii.eqb c "y"%char then
        let r := rnd i in
        let v := Z.lor (Z.land r 3) 8 in
        let '(out, j) := uuid_replace rest rnd (S i) in
        ((toString16 v ++ out)%string, j)
      else
        let '(out, j) := uuid_replace rest rnd i in
        (String c out, j)
  end.

(** [uuid()]: the generated string and the new state (the cursor moved). *)
Definition uuid (env : Env) (st : State) : string * State :=
  let '(s, j) :=
    uuid_replace "xxxxxxxx-xxxx-4xxx-yxxx-xxxxxxxxxxxx" (entropy env) (drawn st) in
  (s, set_drawn j st).

(** [ls.get(k, def)]: [def] when the key is absent or storage throws. *)
Definition ls_get (env : Env) (st : State) (k : string) (def : option Stored)
  : option Stored :=
  if ls_ok env then
    match storage st !! k with
    | Some v => Some v
    | None => def
    end
  else def.

(** [ls.set(k, v)]: nothing happens when storage throws. *)
Definition ls_set (env : Env) (k : string) (v : Stored) (st : State) : State :=
  if ls_ok env then set_storage (<[k := v]> (storage st)) st else st.

(** ** Privacy gates *)

(** [x == '1'] for an indicator that is a string or absent. *)
Definition is_enabled (x : option string) : bool :=
  match x with
  | Some s => String.eqb s "1"
  | None => false
  end.

(** [const dnt = (N.doNotTrack == '1' || N.msDoNotTrack == '1' ||
    W.doNotTrack == '1')]: evaluated once, when the script is loaded. *)
Definition dnt_signal (env : Env) : bool :=
  is_enabled (nav_doNotTrack env) || is_enabled (nav_msDoNotTrack env)
  || is_enabled (win_doNotTrack env).

(** [!!ls.get('cc_consent_granted', false)] *)
Definition consent_granted (env : Env) (st : State) : bool :=
  match ls_get env st CONSENT_KEY (Some (SBool false)) with
  | Some v => stored_truthy v
  | None => false
  end.

(** [const hasConsent = ()=> !cfg.consentRequired ||
    !!ls.get('cc_consent_granted', false)] *)
Definition hasConsent (env : Env) (st : State) : bool :=
  negb (consentRequired (cfg st)) || consent_granted env st.

(** [const readyToTrack = ()=> !dnt && hasConsent() && !!cfg.siteId &&
    !!cfg.endpoint] *)
Definition readyToTrack (env : Env) (st : State) : bool :=
  negb (dnt st) && hasConsent env st
  && nonempty (siteId (cfg st)) && nonempty (endpoint (cfg st)).

(** ** Identity (visitor + session) *)

(** [let id=ls.get(VID_KEY); if(!id){ id=uuid(); ls.set(VID_KEY, id) }
    return id] *)
Definition getVisitorId (env : Env) (st : State) : Stored * State :=
  let fresh :=
    let '(u, st1) := uuid env st in
    (SStr u, ls_set env VID_KEY (SStr u) st1) in
  match ls_get env st VID_KEY None with
  | Some v => if stored_truthy v then (v, st) else fresh
  | None => fresh
  end.

(** [s.last || 0] *)
Definition or_zero (n : Z) : Z := if Z.eqb n 0 then 0 else n.

(** The stored session when the test
    [!s || !s.id || (nowTs - (s.last || 0) > cfg.sessionTimeoutMs)] is false,
    nothing when it is true.  A stored value that is not a session object has
    no [id] property, so the test is true for it. *)
Definition live_session (timeout nowTs : Z) (v : option Stored) : option Session :=
  match v with
  | Some (SSession s) =>
      if negb (nonempty (s_id s)) || Z.ltb timeout (nowTs - or_zero (s_last s))
      then None else Some s
  | _ => None
  end.

Definition getSessionId (env : Env) (st : State) : string * State :=
  let s := ls_get env st SID_KEY None in
  let nowTs := now env in
  match live_session (sessionTimeoutMs (cfg st)) nowTs s with
  | None =>
      let '(u, st1) := uuid env st in
      let s' := {| s_id := u; s_started := nowTs; s_last := nowTs |} in
      (s_id s', ls_set env SID_KEY (SSession s') st1)
  | Some s0 =>
      let s' := {| s_id := s_id s0; s_started := s_started s0; s_last := nowTs |} in
      (s_id s', ls_set env SID_KEY (SSession s') st)
  end.

(** [const s=ls.get(SID_KEY); if(s){ s.last=now(); ls.set(SID_KEY, s) }].
    Assigning [last] on a stored value that is not a session object leaves
    what [JSON.stringify] writes back unchanged. *)
Definition touchSession (env : Env) (st : State) : State :=
  match ls_get env st SID_KEY None with
  | Some v =>
      if stored_truthy v then
        match v with
        | SSession s =>
            ls_set env SID_KEY
              (SSession {| s_id := s_id s; s_started := s_started s;
                          s_last := now env |}) st
        | _ => ls_set env SID_KEY v st
        end
      else st
  | None => st
  end.

(** ** Referrer trail *)

(** [D.referrer && (!refTrail.length ||
    refTrail[refTrail.length-1] !== D.referrer)] *)
Definition trail_accepts (ref : string) (trail : list string) : bool :=
  nonempty ref
  && (Nat.eqb (length trail) 0 || negb (bool_decide (last trail = Some ref))).

(** [refTrail.push(D.referrer); if (refTrail.length>5) refTrail.shift()] *)
Definition trail_push (ref : string) (trail : list string) : list string :=
  let pushed := trail ++ [ref] in
  if Nat.ltb 5 (length pushed) then tail pushed else pushed.

(** The array [refTrail] after the load-time block of the script. *)
Definition trail_append (ref : string) (trail : list string) : list string :=
  if trail_accepts ref trail then trail_push ref trail else trail.

(** ** Script load *)

(** The top-level statements of the script that the core depends on: [dnt]
    is sampled, the trail is read, extended and written back, and the queue
    starts empty.  [c] and [u] are the configuration and the UTM parameters
    the loader resolved.  The model covers the loads where [cc_ref] is
    absent, unreadable or an array of strings.  [None] stands for the other
    loads, which are not modelled: on a stored value that is not an array
    the script fails on [push] when the referrer is to be appended, and
    otherwise goes on with that value as its trail. *)
Definition load (c : Config) (u : list (string * string)) (env : Env)
    (m : gmap string Stored) : option State :=
  let st0 :=
    {| cfg := c; dnt := dnt_signal env; utm := u; refTrail := [];
       queue := []; flushing := false; storage := m; drawn := 0%nat;
       pending := []; wire := []; timers := 0%nat |} in
  match ls_get env st0 REF_KEY (Some (STrail [])) with
  | Some (STrail old) =>
      let new := trail_append (referrer env) old in
      let st1 :=
        {| cfg := c; dnt := dnt_signal env; utm := u; refTrail := new;
           queue := []; flushing := false; storage := m; drawn := 0%nat;
           pending := []; wire := []; timers := 0%nat |} in
      if trail_accepts (referrer env) old
      then Some (ls_set env REF_KEY (STrail new) st1)
      else Some st1
  | _ => None
  end.

(** ** Event queue + transport *)

(** [x || null] for a string. *)
Definition or_null (s : string) : option string :=
  if nonempty s then Some s else None.

(** [baseEvent(type, payload)].  The object literal is evaluated field by
    field: both identity reads happen before [Intl] is touched. *)
Definition baseEvent (env : Env) (type : string) (payload : JsValue)
    (st : State) : State * (JsError + EventRecord) :=
  let ts := now env in
  let '(sid, st1) := getSessionId env st in
  let '(vid, st2) := getVisitorId env st1 in
  if has_Intl env then
    (st2, inr {| ev_t := type; ev_ts := ts; ev_sid := sid; ev_vid := vid;
                 ev_site := siteId (cfg st2);
                 ev_url := href env; ev_path := pathname env;
                 ev_title := title env;
                 ev_ref := or_null (referrer env); ev_lang := language env;
                 ev_tz := or_null (timeZone env);
                 ev_vp := (innerWidth env, innerHeight env);
                 ev_sc := (scrollX env, scrollY env);
                 ev_utm := utm st2; ev_trail := refTrail st2;
                 ev_payload := payload |})
  else (st2, inl (ReferenceError "Intl")).

(** The guard of [flush]:
    [!readyToTrack() || state.flushing || !state.queue.length]. *)
Definition flush_skips (env : Env) (st : State) : bool :=
  negb (readyToTrack env st) || flushing st || Nat.eqb (length (queue st)) 0.

(** [state.flushing = true;
    const batch = state.queue.splice(0, state.queue.length)]:
    the batch taken and the state left behind. *)
Definition flush_take (st : State) : list EventRecord * State :=
  let st1 := set_flushing true st in
  (queue st1, set_queue [] st1).

(** [ok = !!(N.sendBeacon && N.sendBeacon(cfg.endpoint, blob))] inside
    [try { } catch {}]. *)
Definition beacon_ok (env : Env) : bool :=
  match beacon env with
  | BeaconReturns accepted => accepted
  | BeaconMissing | BeaconThrows => false
  end.

(** The rest of [flush], from [new Blob] on. *)
Definition flush_send (env : Env) (batch : list EventRecord) (st : State)
  : State * Result :=
  if negb (has_Blob env) then (st, Thrown (ReferenceError "Blob"))
  else if negb (beacon_ok env) then
    if has_fetch env then
      (set_pending (pending st ++ [batch]) (set_wire (wire st ++ [Posted batch]) st),
       Done)
    else (st, Thrown (ReferenceError "fetch"))
  else (set_flushing false (set_wire (wire st ++ [Beaconed batch]) st), Done).

Definition flush (env : Env) (st : State) : State * Result :=
  if flush_skips env st then (st, Done)
  else
    let '(batch, st1) := flush_take st in
    flush_send env batch st1.

(** The two handlers attached to the fallback request,
    [.catch(()=>{ state.queue.unshift(...batch) })] and
    [.finally(()=>{ state.flushing=false })], run when the [i]-th pending
    request settles.  A resolved promise skips the [catch] handler, whatever
    the status of the response. *)
Definition settle (i : nat) (o : FetchOutcome) (st : State) : State :=
  match pending st !! i with
  | None => st
  | Some batch =>
      let st1 := set_pending (delete i (pending st)) st in
      let st2 :=
        match o with
        | NetworkError => set_queue (batch ++ queue st1) st1
        | Response _ => st1
        end in
      set_flushing false st2
  end.

Definition enqueue (env : Env) (type : string) (payload : JsValue)
    (st : State) : State * Result :=
  if negb (readyToTrack env st) then (st, Done)
  else
    match baseEvent env type payload st with
    | (st1, inl e) => (st1, Thrown e)
    | (st1, inr ev) =>
        let st2 := set_queue (queue st1 ++ [ev]) st1 in
        if Z.leb (maxBatch (cfg st2)) (Z.of_nat (length (queue st2)))
        then flush env st2
        else (st2, Done)
    end.

(** [function scheduleFlush(){ setTimeout(flush, 250) }] *)
Definition scheduleFlush (st : State) : State := set_timers (S (timers st)) st.

(** ** Public API *)

(** [const API = { track: enqueue, consentGranted(){...}, ... }]:
    [W.CC.embed.track] is [enqueue] itself. *)
Definition API_track (env : Env) (type : string) (payload : JsValue)
    (st : State) : State * Result :=
  enqueue env type payload st.

(** [consentGranted(){ ls.set('cc_consent_granted', true) }] *)
Definition API_consentGranted (env : Env) (st : State) : State :=
  ls_set env CONSENT_KEY (SBool true) st.

(** [payload && typeof payload==='object' ? payload : {}] *)
Definition coerce_payload (payload : JsValue) : JsValue :=
  if truthy payload && typeof_object payload then payload else JObj [].

(** [W.CC_EMBED.track = function(type, payload){
      try { enqueue(String(type||'custom'), <coerced payload>);
            scheduleFlush(); } catch{} }]
    for a [type] that is a string. *)
Definition CC_EMBED_track (env : Env) (type : string) (payload : JsValue)
    (st : State) : State * Result :=
  let type' := if nonempty type then type else "custom" in
  match enqueue env type' (coerce_payload payload) st with
  | (st1, Done) => (scheduleFlush st1, Done)
  | (st1, Thrown _) => (st1, Done)
  end.

(** ** Runs of the page *)

(** One turn of the event loop that concerns the core. *)
Inductive Action : Type :=
| Enqueue (type : string) (payload : JsValue)
| Flush
| Settle (i : nat) (o : FetchOutcome)
| Track (type : string) (payload : JsValue)
| EmbedTrack (type : string) (payload : JsValue)
| ConsentGranted
| TouchSession.

Definition step (env : Env) (a : Action) (st : State) : State * Result :=
  match a with
  | Enqueue type payload => enqueue env type payload st
  | Flush => flush env st
  | Settle i o => (settle i o st, Done)
  | Track type payload => API_track env type payload st
  | EmbedTrack type payload => CC_EMBED_track env type payload st
  | ConsentGranted => (API_consentGranted env st, Done)
  | TouchSession => (touchSession env st, Done)
  end.

(** A run: the turns in order, each under the environment of its moment.  An
    exception ends its turn only; the state it left is kept. *)
Fixpoint run (turns : list (Env * Action)) (st : State) : State :=
  match turns with
  | [] => st
  | (env, a) :: rest => run rest (fst (step env a st))
  end.

(** ** Auxiliary definitions for the statements *)

(** The formula of the design document, over its five inputs. *)
Definition spec_isTrackingAllowed
    (doNotTrack consentNotRequired consentGranted
     siteIdPresent endpointPresent : bool) : bool :=
  negb doNotTrack && (consentNotRequired || consentGranted)
  && siteIdPresent && endpointPresent.

(** Everything in the state except the identity entries of [localStorage] and
    the random cursor. *)
Definition script_view (st : State) :=
  (cfg st, dnt st, utm st, refTrail st, queue st, flushing st,
   pending st, wire st, timers st, storage st !! CONSENT_KEY).

(** The constants of the script, fixed when it is loaded. *)
Definition static_view (st : State) :=
  (cfg st, dnt st, utm st, refTrail st).

(** The trail after page loads with the given referrers, oldest load first:
    every load applies the load-time block to the trail the previous load
    stored. *)
Definition trail_after (refs : list string) (trail : list string)
  : list string :=
  foldl (fun t r => trail_append r t) trail refs.

(** What the gate reads from the state. *)
Definition gate_view (st : State) :=
  (cfg st, dnt st, storage st !! CONSENT_KEY).

(** A sequence of [enqueue] calls, each with the environment of its moment,
    as turns of the page. *)
Definition enqueue_turns (calls : list (Env * (string * JsValue)))
  : list (Env * Action) :=
  map (fun c => (fst c, Enqueue (fst (snd c)) (snd (snd c)))) calls.

(** What the producer gave for each queued record. *)
Definition produced (q : list EventRecord) : list (string * JsValue) :=
  map (fun ev => (ev_t ev, ev_payload ev)) q.

(** ** Concrete pages used in examples *)

Module Demo.

Definition cfg0 : Config :=
  {| siteId := "site-1"; endpoint := "https://collector.example/ingest";
     consentRequired := false; sessionTimeoutMs := 1800000; maxBatch := 20 |}.

(** A browser without [sendBeacon]: every flush uses the fallback POST. *)
Definition env0 : Env :=
  {| clock := 1000; entropy := fun i => Z.of_nat (i mod 16);
     nav_doNotTrack := None; nav_msDoNotTrack := None;
     win_doNotTrack := None; ls_ok := true;
     href := "https://host.example/a"; pathname := "/a"; title := "A";
     referrer := ""; language := "en"; has_Intl := true;
     timeZone := "UTC"; innerWidth := 800; innerHeight := 600;
     scrollX := 0; scrollY := 0;
     beacon := BeaconMissing; has_Blob := true; has_fetch := true |}.

Definition at_time (t : Z) (env : Env) : Env :=
  {| clock := t; entropy := entropy env;
     nav_doNotTrack := nav_doNotTrack env;
     nav_msDoNotTrack := nav_msDoNotTrack env;
     win_doNotTrack := win_doNotTrack env; ls_ok := ls_ok env;
     href := href env; pathname := pathname env; title := title env;
     referrer := referrer env; language := language env;
     has_Intl := has_Intl env; timeZone := timeZone env;
     innerWidth := innerWidth env; innerHeight := innerHeight env;
     scrollX := scrollX env; scrollY := scrollY env;
     beacon := beacon env; has_Blob := has_Blob env;
     has_fetch := has_fetch env |}.

Definition with_doNotTrack (v : option string) (env : Env) : Env :=
  {| clock := clock env; entropy := entropy env;
     nav_doNotTrack := v;
     nav_msDoNotTrack := nav_msDoNotTrack env;
     win_doNotTrack := win_doNotTrack env; ls_ok := ls_ok env;
     href := href env; pathname := pathname env; title := title env;
     referrer := referrer env; language := language env;
     has_Intl := has_Intl env; timeZone := timeZone env;
     innerWidth := innerWidth env; innerHeight := innerHeight env;
     scrollX := scrollX env; scrollY := scrollY env;
     beacon := beacon env; has_Blob := has_Blob env;
     has_fetch := has_fetch env |}.

Definition with_beacon (b : Beacon) (env : Env) : Env :=
  {| clock := clock env; entropy := entropy env;
     nav_doNotTrack := nav_doNotTrack env;
     nav_msDoNotTrack := nav_msDoNotTrack env;
     win_doNotTrack := win_doNotTrack env; ls_ok := ls_ok env;
     href := href env; pathname := pathname env; title := title env;
     referrer := referrer env; language := language env;
     has_Intl := has_Intl env; timeZone := timeZone env;
     innerWidth := innerWidth env; innerHeight := innerHeight env;
     scrollX := scrollX env; scrollY := scrollY env;
     beacon := b; has_Blob := has_Blob env;
     has_fetch := has_fetch env |}.

(** The state right after the script was loaded on [env0] with an empty
    [localStorage]. *)
Definition st0 : State :=
  {| cfg := cfg0; dnt := false; utm := []; refTrail := [];
     queue := []; flushing := false; storage := ∅; drawn := 0%nat;
     pending := []; wire := []; timers := 0%nat |}.

Definition with_cfg (c : Config) (st : State) : State :=
  {| cfg := c; dnt := dnt st; utm := utm st; refTrail := refTrail st;
     queue := queue st; flushing := flushing st; storage := storage st;
     drawn := drawn st; pending := pending st; wire := wire st;
     timers := timers st |}.

(** The same browser with the do-not-track indicator switched on. *)
Definition env_dnt : Env := with_doNotTrack (Some "1") env0.

(** The state after loading the script while do-not-track is on. *)
Definition st_dnt : State :=
  {| cfg := cfg0; dnt := true; utm := []; refTrail := [];
     queue := []; flushing := false; storage := ∅; drawn := 0%nat;
     pending := []; wire := []; timers := 0%nat |}.

(** A site that requires consent; nothing was granted yet. *)
Definition cfg_consent : Config :=
  {| siteId := "site-1"; endpoint := "https://collector.example/ingest";
     consentRequired := true; sessionTimeoutMs := 1800000; maxBatch := 20 |}.

Definition st_consent : State := with_cfg cfg_consent st0.

(** A page on which a session was last touched at time 5000. *)
Definition session_A : Session :=
  {| s_id := "aaaaaaaa-aaaa-4aaa-8aaa-aaaaaaaaaaaa";
     s_started := 2000; s_last := 5000 |}.

Definition st_session : State :=
  set_storage (<[SID_KEY := SSession session_A]> ∅) st0.

(** One tracked pageview on the fresh page. *)
Definition st_one : State := fst (enqueue env0 "pageview" (JObj []) st0).

(** Three tracked events on the fresh page. *)
Definition calls3 : list (Env * (string * JsValue)) :=
  [(env0, ("pageview", JObj []));
   (at_time 1100 env0, ("scroll", JObj [("depth", JNum 40)]));
   (at_time 1200 env0, ("click", JObj [("href", JStr "/b")]))].

Definition st_three : State := run (enqueue_turns calls3) st0.

(** A browser whose [sendBeacon] accepts what it is given. *)
Definition env_beacon : Env := with_beacon (BeaconReturns true) env0.

(** The fallback request for the first pageview is still pending while 19
    heartbeats are tracked. *)
Definition st_busy : State :=
  run ((env0, Flush) :: repeat (env0, Enqueue "hb" (JObj [])) 19) st_one.

(** Nineteen heartbeats tracked on a browser with a working [sendBeacon];
    nothing was flushed yet. *)
Definition st_nineteen : State :=
  run (repeat (env_beacon, Enqueue "hb" (JObj [])) 19) st0.

End Demo.

(** ** Further parts of the script *)

(** The numbers [clamp] is given.  Its one caller, [trackScroll], passes
    the result of [Math.round] and the bounds 0 and 100: such a number is
    [NaN], an infinity or an integer-valued double.  Negative zero, which
    compares equal to zero and which [Math.max(0, _)] turns into zero, is
    not told apart from zero. *)
Inductive JsNumber : Type :=
| NNaN
| NNegInf
| NPosInf
| NInt (z : Z).

(** [Math.min] and [Math.max] of two numbers: [NaN] when an argument is
    [NaN], otherwise the smaller, respectively the larger. *)
Definition Math_min (a b : JsNumber) : JsNumber :=
  match a, b with
  | NNaN, _ | _, NNaN => NNaN
  | NNegInf, _ | _, NNegInf => NNegInf
  | NPosInf, x | x, NPosInf => x
  | NInt x, NInt y => NInt (Z.min x y)
  end.

Definition Math_max (a b : JsNumber) : JsNumber :=
  match a, b with
  | NNaN, _ | _, NNaN => NNaN
  | NPosInf, _ | _, NPosInf => NPosInf
  | NNegInf, x | x, NNegInf => x
  | NInt x, NInt y => NInt (Z.max x y)
  end.

(** [const clamp = (n,min,max)=> Math.max(min, Math.min(max, n))] *)
Definition clamp (n min max : JsNumber) : JsNumber :=
  Math_max min (Math_min max n).

(** The double quote character. *)
Definition dquote : ascii := ascii_of_nat 34.

(** The callback of the global [replace] in [escapeHTML]: the entity for
    each of the five characters of its class (ampersand, less than,
    greater than, double quote, apostrophe), and the character itself
    otherwise. *)
Definition escape_char (c : ascii) : string :=
  if Ascii.eqb c "&" then "&amp;"
  else if Ascii.eqb c "<" then "&lt;"
  else if Ascii.eqb c ">" then "&gt;"
  else if Ascii.eqb c dquote then "&quot;"
  else if Ascii.eqb c "'" then "&#39;"
  else String c EmptyString.

(** [escapeHTML(s)] for a string [s]. *)
Fixpoint escapeHTML (s : string) : string :=
  match s with
  | EmptyString => EmptyString
  | String c rest => (escape_char c ++ escapeHTML rest)%string
  end.

(** [s.split(sep)] for a separator of one character: never empty, the
    empty string gives one empty piece. *)
Fixpoint split_on (sep : ascii) (s : string) : list string :=
  match s with
  | EmptyString => [EmptyString]
  | String c rest =>
      if Ascii.eqb c sep then EmptyString :: split_on sep rest
      else
        match split_on sep rest with
        | piece :: pieces => String c piece :: pieces
        | [] => [String c EmptyString]
        end
  end.

(** [qs.replace(/^\?/, '')] *)
Definition strip_question (qs : string) : string :=
  match qs with
  | String c rest => if Ascii.eqb c "?" then rest else qs
  | EmptyString => EmptyString
  end.

(** [p[k] = v] on the plain object [p] for a string [v]: an own property
    is set, except for the key [__proto__], whose setter ignores a value
    that is not an object. *)
Definition set_prop (k v : string) (p : gmap string string)
  : gmap string string :=
  if String.eqb k "__proto__" then p else <[k := v]> p.

(** The [forEach] callback of [parseQuery]:
    [if(!kv) return; const [k,v]=kv.split('=');
     p[decodeURIComponent(k)] = decodeURIComponent(v||'')].
    [decode] stands for the platform's [decodeURIComponent], [None] when it
    throws; the object [p] is the map of its own properties and [None] an
    exception already raised. *)
Definition parse_item (decode : string -> option string)
    (p : option (gmap string string)) (kv : string)
  : option (gmap string string) :=
  match p with
  | None => None
  | Some m =>
      if negb (nonempty kv) then Some m
      else
        let parts := split_on "=" kv in
        let k := nth 0 parts "" in
        let v := nth 1 parts "" in
        match decode k, decode v with
        | Some k', Some v' => Some (set_prop k' v' m)
        | _, _ => None
        end
  end.

(** [parseQuery(qs)] *)
Definition parseQuery (decode : string -> option string) (qs : string)
  : option (gmap string string) :=
  foldl (parse_item decode) (Some ∅) (split_on "&" (strip_question qs)).

Definition UTM_KEYS : list string :=
  ["utm_source"; "utm_medium"; "utm_campaign"; "utm_term"; "utm_content"].

(** [UTM_KEYS.reduce((o,k)=>{ if(q[k]) o[k]=q[k]; return o },{})] *)
Definition utm_of (q : gmap string string) : list (string * string) :=
  foldl (fun o k =>
           match q !! k with
           | Some v => if nonempty v then o ++ [(k, v)] else o
           | None => o
           end) [] UTM_KEYS.

(** [const q = parseQuery(L.search || ''); const utm = ...] *)
Definition utm_of_search (decode : string -> option string) (search : string)
  : option (list (string * string)) :=
  utm_of <$> parseQuery decode search.

(** The object built by [currentCtx()] (second copy of the script). *)
Record Ctx := {
  ctx_siteId : string;
  ctx_vid : Stored;
  ctx_sid : string;
  ctx_path : string;
  ctx_ts : Z
}.

(** [currentCtx()]: the visitor id is read before the session id. *)
Definition currentCtx (env : Env) (st : State) : Ctx * State :=
  let '(vid, st1) := getVisitorId env st in
  let '(sid, st2) := getSessionId env st1 in
  ({| ctx_siteId := siteId (cfg st2); ctx_vid := vid; ctx_sid := sid;
      ctx_path := pathname env; ctx_ts := now env |}, st2).

(** The own enumerable properties [Object.assign] copies from a source
    (their enumeration order for index-like keys is not modelled). *)
Definition own_props (v : JsValue) : list (string * JsValue) :=
  match v with
  | JObj fields => fields
  | JArr items => imap (fun i x => (pretty i, x)) items
  | JStr s =>
      imap (fun i c => (pretty i, JStr (String c EmptyString)))
        (list_ascii_of_string s)
  | _ => []
  end.

(** [target[k] = v]: an existing key keeps its place. *)
Fixpoint assign_prop (k : string) (v : JsValue)
    (target : list (string * JsValue)) : list (string * JsValue) :=
  match target with
  | [] => [(k, v)]
  | (k', v') :: rest =>
      if String.eqb k' k then (k', v) :: rest
      else (k', v') :: assign_prop k v rest
  end.

(** [Object.assign(target, source)] *)
Definition Object_assign (target : list (string * JsValue)) (source : JsValue)
  : list (string * JsValue) :=
  foldl (fun t kv => assign_prop (fst kv) (snd kv) t) target (own_props source).

(** [function trackPageview(meta){ enqueue('pageview',
      Object.assign({ hash: L.hash || null }, meta||{})) }];
    [hash] is [L.hash] at the time of the call. *)
Definition trackPageview (hash : string) (meta : JsValue) (env : Env)
    (st : State) : State * Result :=
  let h := match or_null hash with Some s => JStr s | None => JNull end in
  enqueue env "pageview"
    (JObj (Object_assign [("hash", h)]
             (if truthy meta then meta else JObj []))) st.

(** [function onChange(){ touchSession(); trackPageview({ spa:true });
      scheduleFlush() }] of [hookSPA] (third copy of the script).
    [touchSession] and the [getSessionId] of the pageview read the clock one
    after the other: [env_touch] is the platform at the first reading,
    [env] at the second. *)
Definition onChange (hash : string) (env_touch env : Env) (st : State)
  : State * Result :=
  let st1 := touchSession env_touch st in
  match trackPageview hash (JObj [("spa", JBool true)]) env st1 with
  | (st2, Done) => (scheduleFlush st2, Done)
  | (st2, Thrown e) => (st2, Thrown e)
  end.

(** ** Auxiliary definitions for the further statements *)

(** At most one fallback request is pending, and then the flag is set. *)
Definition inflight_ok (st : State) : Prop :=
  (length (pending st) <= 1)%nat /\ (pending st <> [] -> flushing st = true).

(** The batches [sendBeacon] accepted, in order. *)
Definition beaconed (w : list Request) : list EventRecord :=
  flat_map (fun r => match r with
                     | Beaconed batch => batch
                     | Posted _ => []
                     end) w.

(** Every record the script still answers for or has handed to the beacon:
    delivered by beacon, then pending in a request, then queued. *)
Definition ledger (st : State) : list EventRecord :=
  beaconed (wire st) ++ concat (pending st) ++ queue st.

(** A turn on a platform that can build a request body and send it one way
    or the other, and that is not the arrival of an HTTP response. *)
Definition benign (turn : Env * Action) : Prop :=
  has_Blob (fst turn) = true
  /\ (beacon_ok (fst turn) = true \/ has_fetch (fst turn) = true)
  /\ forall i status, snd turn <> Settle i (Response status).

(** What the producers asked to record in the turns of a run. *)
Definition asked (turns : list (Env * Action)) : list (string * JsValue) :=
  flat_map (fun turn =>
              match snd turn with
              | Enqueue type payload | Track type payload => [(type, payload)]
              | EmbedTrack type payload =>
                  [(if nonempty type then type else "custom",
                    coerce_payload payload)]
              | _ => []
              end) turns.

(** No two neighbours of the list are equal. *)
Fixpoint adjacent_distinct (l : list string) : Prop :=
  match l with
  | a :: (b :: _) as rest => a <> b /\ adjacent_distinct rest
  | _ => True
  end.

(** The shape the referrer trail keeps. *)
Definition trail_ok (trail : list string) : Prop :=
  (length trail <= 5)%nat
  /\ Forall (fun r => r <> "") trail
  /\ adjacent_distinct trail.

(** The characters [escapeHTML] replaces. *)
Definition html_special (c : ascii) : bool :=
  Ascii.eqb c "&" || Ascii.eqb c "<" || Ascii.eqb c ">"
  || Ascii.eqb c dquote || Ascii.eqb c "'".

(** [c] occurs in [s]. *)
Fixpoint occurs (c : ascii) (s : string) : bool :=
  match s with
  | EmptyString => false
  | String a rest => Ascii.eqb a c || occurs c rest
  end.

(** The query string [k1=v1&k2=v2&...] *)
Definition query_of (pairs : list (string * string)) : string :=
  String.concat "&" (map (fun kv => (fst kv ++ "=" ++ snd kv)%string) pairs).

(** The queue, the flag, the pending requests and the wire. *)
Definition transport_view (st : State) :=
  (queue st, flushing st, pending st, wire st).

(** A gate that no environment can open: do-not-track was on at load, or the
    site id or the endpoint is missing. *)
Definition gate_shut (st : State) : Prop :=
  dnt st = true \/ siteId (cfg st) = "" \/ endpoint (cfg st) = "".

(** What a page with a shut gate leaves alone. *)
Definition idle_view (st : State) :=
  (queue st, wire st, pending st, drawn st, storage st !! VID_KEY).

(** ** Further example pages *)

Module Pages.

(** A browser whose [localStorage] throws on every access. *)
Definition env_nols : Env :=
  {| clock := 1000; entropy := fun i => Z.of_nat (i mod 16);
     nav_doNotTrack := None; nav_msDoNotTrack := None;
     win_doNotTrack := None; ls_ok := false;
     href := "https://host.example/a"; pathname := "/a"; title := "A";
     referrer := ""; language := "en"; has_Intl := true;
     timeZone := "UTC"; innerWidth := 800; innerHeight := 600;
     scrollX := 0; scrollY := 0;
     beacon := BeaconMissing; has_Blob := true; has_fetch := true |}.

(** A browser without the [Intl] global. *)
Definition env_nointl : Env :=
  {| clock := 1000; entropy := fun i => Z.of_nat (i mod 16);
     nav_doNotTrack := None; nav_msDoNotTrack := None;
     win_doNotTrack := None; ls_ok := true;
     href := "https://host.example/a"; pathname := "/a"; title := "A";
     referrer := ""; language := "en"; has_Intl := false;
     timeZone := ""; innerWidth := 800; innerHeight := 600;
     scrollX := 0; scrollY := 0;
     beacon := BeaconMissing; has_Blob := true; has_fetch := true |}.

(** A browser without [Blob]. *)
Definition env_noblob : Env :=
  {| clock := 1000; entropy := fun i => Z.of_nat (i mod 16);
     nav_doNotTrack := None; nav_msDoNotTrack := None;
     win_doNotTrack := None; ls_ok := true;
     href := "https://host.example/a"; pathname := "/a"; title := "A";
     referrer := ""; language := "en"; has_Intl := true;
     timeZone := "UTC"; innerWidth := 800; innerHeight := 600;
     scrollX := 0; scrollY := 0;
     beacon := BeaconReturns true; has_Blob := false; has_fetch := true |}.

(** Long after the stored session of [Demo.st_session] has expired. *)
Definition env_late : Env := Demo.at_time 99000000 Demo.env0.

(** A tracked pageview, a flush through [fetch], its failure with a network
    error, and a retry through a working [sendBeacon]. *)
Definition retry_run : list (Env * Action) :=
  [(Demo.env0, Enqueue "pageview" (JObj []));
   (Demo.env0, Flush);
   (Demo.env0, Settle 0 NetworkError);
   (Demo.env_beacon, Flush)].

(** What the page goes on to do after a flush has thrown. *)
Definition calls_after_failure : list (Env * Action) :=
  [(Demo.env0, Enqueue "hb" (JObj []));
   (Demo.env_beacon, Flush);
   (Demo.env0, Settle 0 (Response 200));
   (Demo.env_beacon, Flush)].

(** A stored session whose id is the one [uuid()] builds from the first
    random values of [Demo.env0]. *)
Definition session_twin : Session :=
  {| s_id := "01234567-89ab-4cde-b012-3456789abcde";
     s_started := 2000; s_last := 5000 |}.

Definition st_twin : State :=
  set_storage (<[SID_KEY := SSession session_twin]> ∅) Demo.st0.

End Pages.

(** * Properties *)

Lemma nonempty_true (s : string) : nonempty s = true <-> s <> "".
Proof.
  unfold nonempty. destruct (String.eqb_spec s ""); simpl; split; congruence.
Qed.

(** ** What the identity functions leave alone *)

Lemma or_zero_id (n : Z) : or_zero n = n.
Proof. unfold or_zero. destruct (Z.eqb_spec n 0); congruence. Qed.

Lemma view_ls_set env k v st :
  k <> CONSENT_KEY -> script_view (ls_set env k v st) = script_view st.
Proof.
  intros Hk. unfold ls_set, script_view.
  destruct (ls_ok env); simpl; [|reflexivity].
  by rewrite lookup_insert_ne.
Qed.

Lemma uuid_state env st :
  snd (uuid env st) =
  set_drawn (snd (uuid_replace "xxxxxxxx-xxxx-4xxx-yxxx-xxxxxxxxxxxx"
                    (entropy env) (drawn st))) st.
Proof. unfold uuid. by destruct (uuid_replace _ _ _). Qed.

Lemma view_uuid env st : script_view (snd (uuid env st)) = script_view st.
Proof. by rewrite uuid_state. Qed.

Lemma view_getSessionId env st :
  script_view (snd (getSessionId env st)) = script_view st.
Proof.
  unfold getSessionId.
  destruct (live_session _ _ _) as [s0|].
  - simpl. by rewrite view_ls_set.
  - pose proof (view_uuid env st) as Hu.
    destruct (uuid env st) as [u st1]. simpl in *.
    by rewrite view_ls_set.
Qed.

Lemma view_getVisitorId env st :
  script_view (snd (getVisitorId env st)) = script_view st.
Proof.
  unfold getVisitorId.
  pose proof (view_uuid env st) as Hu.
  destruct (uuid env st) as [u st1]. simpl in Hu.
  destruct (ls_get env st VID_KEY None) as [v|];
    [destruct (stored_truthy v)|]; simpl; try reflexivity;
    by rewrite view_ls_set.
Qed.

Lemma view_baseEvent env type payload st :
  script_view (fst (baseEvent env type payload st)) = script_view st.
Proof.
  unfold baseEvent.
  pose proof (view_getSessionId env st) as Hs.
  destruct (getSessionId env st) as [sid st1]. simpl in Hs.
  pose proof (view_getVisitorId env st1) as Hv.
  destruct (getVisitorId env st1) as [vid st2]. simpl in Hv.
  destruct (has_Intl env); simpl; congruence.
Qed.

(** The gate reads the state only through [script_view]. *)
Lemma readyToTrack_view env st st' :
  script_view st' = script_view st -> readyToTrack env st' = readyToTrack env st.
Proof.
  unfold script_view. intros H. injection H as Hc Hd _ _ _ _ _ _ _ Hk.
  unfold readyToTrack, hasConsent, consent_granted, ls_get.
  by rewrite Hc, Hd, Hk.
Qed.

(** The record built by [baseEvent] carries the producer's type and payload. *)
Lemma baseEvent_record env type payload st :
  has_Intl env = true ->
  exists ev, snd (baseEvent env type payload st) = inr ev
             /\ ev_t ev = type /\ ev_payload ev = payload.
Proof.
  intros HI. unfold baseEvent.
  destruct (getSessionId env st) as [sid st1].
  destruct (getVisitorId env st1) as [vid st2].
  rewrite HI. simpl. eexists. split; [reflexivity|]. by split.
Qed.

(** ** The privacy gate *)

Lemma consent_granted_true env st :
  consent_granted env st = true <->
  ls_ok env = true /\
  exists v, storage st !! CONSENT_KEY = Some v /\ stored_truthy v = true.
Proof.
  unfold consent_granted, ls_get. split.
  - destruct (ls_ok env); [|discriminate].
    destruct (storage st !! CONSENT_KEY) as [v|]; [|discriminate].
    intros Hv. split; [reflexivity|]. by exists v.
  - intros [-> (v & -> & Hv)]. exact Hv.
Qed.

(** The gate on any state, over the script's [dnt] constant: consent is
    granted when [localStorage] is readable and holds a truthy value under
    [cc_consent_granted], and the two configuration strings are tested for
    emptiness. *)
Lemma readyToTrack_state_formula (env : Env) (st : State) :
  readyToTrack env st
  = spec_isTrackingAllowed (dnt st) (negb (consentRequired (cfg st)))
      (consent_granted env st)
      (nonempty (siteId (cfg st))) (nonempty (endpoint (cfg st)))
  /\ (readyToTrack env st = true <->
      dnt st = false
      /\ (consentRequired (cfg st) = false
          \/ (ls_ok env = true
              /\ exists v, storage st !! CONSENT_KEY = Some v
                           /\ stored_truthy v = true))
      /\ siteId (cfg st) <> "" /\ endpoint (cfg st) <> "").
Proof.
  split; [reflexivity|].
  unfold readyToTrack, hasConsent.
  rewrite !andb_true_iff, orb_true_iff, !negb_true_iff,
    !nonempty_true, consent_granted_true.
  tauto.
Qed.

Lemma gate_denies_dnt env st : dnt st = true -> readyToTrack env st = false.
Proof. intros H. unfold readyToTrack. by rewrite H. Qed.

Lemma gate_denies_without_consent env st :
  consentRequired (cfg st) = true -> storage st !! CONSENT_KEY = None ->
  readyToTrack env st = false.
Proof.
  intros Hr Hc. unfold readyToTrack, hasConsent, consent_granted, ls_get.
  rewrite Hr, Hc. simpl. destruct (ls_ok env), (dnt st); reflexivity.
Qed.

(** The first statement of [enqueue]. *)
Lemma enqueue_gate_closed env type payload st :
  readyToTrack env st = false -> enqueue env type payload st = (st, Done).
Proof. intros H. unfold enqueue. by rewrite H. Qed.

(** C8.  When the gate denies, [enqueue] returns normally, with the state,
    and so the queue and its length, exactly as it found them, whatever the
    type and payload and whatever the platform lacks. *)
Theorem enqueue_denied_silent (env : Env) (type : string) (payload : JsValue)
    (st : State) :
  readyToTrack env st = false ->
  snd (enqueue env type payload st) = Done
  /\ length (queue (fst (enqueue env type payload st))) = length (queue st)
  /\ fst (enqueue env type payload st) = st.
Proof. intros H. by rewrite enqueue_gate_closed. Qed.

(** C10.  A denied [enqueue] leaves the stored visitor id, the stored session
    record and the random cursor as they were, and its outcome does not
    depend on what the two identity entries hold: it is the same no-op for
    any value written under [cc_vid] or [cc_sid] beforehand. *)
Theorem enqueue_denied_identity_untouched (env : Env) (type : string)
    (payload : JsValue) (st : State) :
  readyToTrack env st = false ->
  storage (fst (enqueue env type payload st)) !! VID_KEY = storage st !! VID_KEY
  /\ storage (fst (enqueue env type payload st)) !! SID_KEY = storage st !! SID_KEY
  /\ drawn (fst (enqueue env type payload st)) = drawn st
  /\ forall (k : string) (v : Stored),
       k = VID_KEY \/ k = SID_KEY ->
       enqueue env type payload (set_storage (<[k := v]> (storage st)) st)
       = (set_storage (<[k := v]> (storage st)) st, Done).
Proof.
  intros H. rewrite enqueue_gate_closed by exact H. simpl.
  repeat split.
  intros k v Hk. apply enqueue_gate_closed.
  rewrite <- H. apply readyToTrack_view.
  unfold script_view. simpl.
  rewrite lookup_insert_ne; [reflexivity|].
  destruct Hk as [-> | ->]; discriminate.
Qed.

(** An allowed [enqueue], by contrast, writes both identity entries. *)
Example enqueue_allowed_writes_identity :
  let st' := fst (enqueue Demo.env0 "pageview" (JObj []) Demo.st0) in
  storage Demo.st0 !! SID_KEY = None
  /\ storage st' !! SID_KEY
     = Some (SSession {| s_id := "01234567-89ab-4cde-b012-3456789abcde";
                         s_started := 1000; s_last := 1000 |})
  /\ storage st' !! VID_KEY = Some (SStr "f0123456-789a-4bcd-af01-23456789abcd").
Proof. vm_compute. repeat split. Qed.

Lemma enqueue_denied_silent_witness :
  readyToTrack Demo.env_dnt Demo.st_dnt = false
  /\ (snd (enqueue Demo.env_dnt "pageview" (JObj []) Demo.st_dnt) = Done
      /\ length (queue (fst (enqueue Demo.env_dnt "pageview" (JObj []) Demo.st_dnt)))
         = length (queue Demo.st_dnt)
      /\ fst (enqueue Demo.env_dnt "pageview" (JObj []) Demo.st_dnt) = Demo.st_dnt).
Proof.
  split; [reflexivity|].
  apply (enqueue_denied_silent Demo.env_dnt "pageview" (JObj []) Demo.st_dnt).
  reflexivity.
Defined.

Lemma enqueue_denied_identity_untouched_witness :
  readyToTrack Demo.env0 Demo.st_consent = false
  /\ storage (fst (enqueue Demo.env0 "pageview" (JNum 7) Demo.st_consent)) !! SID_KEY
     = storage Demo.st_consent !! SID_KEY.
Proof.
  split; [reflexivity|].
  apply (enqueue_denied_identity_untouched Demo.env0 "pageview" (JNum 7)
           Demo.st_consent).
  reflexivity.
Defined.

(** ** The do-not-track sample *)

Lemma static_script_view st st' :
  script_view st' = script_view st -> static_view st' = static_view st.
Proof.
  unfold script_view, static_view. intros H.
  injection H as -> -> -> ->. reflexivity.
Qed.

Lemma static_flush_send env batch st :
  static_view (fst (flush_send env batch st)) = static_view st.
Proof.
  unfold flush_send.
  destruct (has_Blob env), (beacon_ok env), (has_fetch env); reflexivity.
Qed.

Lemma static_flush env st : static_view (fst (flush env st)) = static_view st.
Proof.
  unfold flush. destruct (flush_skips env st); [reflexivity|].
  unfold flush_take. by rewrite static_flush_send.
Qed.

Lemma static_settle i o st : static_view (settle i o st) = static_view st.
Proof.
  unfold settle. destruct (pending st !! i); [|reflexivity].
  destruct o; reflexivity.
Qed.

Lemma static_enqueue env type payload st :
  static_view (fst (enqueue env type payload st)) = static_view st.
Proof.
  unfold enqueue. destruct (readyToTrack env st); [|reflexivity]. simpl.
  pose proof (static_script_view _ _ (view_baseEvent env type payload st)) as Hb.
  destruct (baseEvent env type payload st) as [st1 [e|ev]]; simpl in *;
    [exact Hb|].
  destruct (Z.leb _ _); [|exact Hb].
  by rewrite static_flush.
Qed.

Lemma static_ls_set env k v st :
  static_view (ls_set env k v st) = static_view st.
Proof. unfold ls_set. by destruct (ls_ok env). Qed.

Lemma static_touchSession env st :
  static_view (touchSession env st) = static_view st.
Proof.
  unfold touchSession.
  destruct (ls_get env st SID_KEY None) as [v|]; [|reflexivity].
  destruct (stored_truthy v); [|reflexivity].
  destruct v; apply static_ls_set.
Qed.

Lemma static_step env a st :
  static_view (fst (step env a st)) = static_view st.
Proof.
  destruct a as [ty p| |i o|ty p|ty p| |]; simpl.
  - apply static_enqueue.
  - apply static_flush.
  - apply static_settle.
  - apply static_enqueue.
  - unfold CC_EMBED_track.
    pose proof (static_enqueue env (if nonempty ty then ty else "custom")
                  (coerce_payload p) st) as He.
    destruct (enqueue _ _ _ st) as [st1 [|e]]; exact He.
  - apply static_ls_set.
  - apply static_touchSession.
Qed.

Lemma static_run turns st : static_view (run turns st) = static_view st.
Proof.
  revert st. induction turns as [|[env a] rest IH]; intros st; [reflexivity|].
  simpl. rewrite IH. apply static_step.
Qed.

Lemma load_samples_dnt c u env m st :
  load c u env m = Some st -> dnt st = dnt_signal env.
Proof.
  unfold load. intros H.
  destruct (ls_get env _ REF_KEY _) as [[b|s|s|old]|]; try discriminate.
  destruct (trail_accepts (referrer env) old); injection H as <-;
    [|reflexivity].
  unfold ls_set. by destruct (ls_ok env).
Qed.

Lemma load_cfg c u env m st : load c u env m = Some st -> cfg st = c.
Proof.
  unfold load. intros H.
  destruct (ls_get env _ REF_KEY _) as [[b|s|s|old]|]; try discriminate.
  destruct (trail_accepts (referrer env) old); injection H as <-;
    [|reflexivity].
  unfold ls_set. by destruct (ls_ok env).
Qed.

Lemma is_enabled_true (x : option string) :
  is_enabled x = true <-> x = Some "1".
Proof.
  destruct x as [s|]; simpl; [|split; discriminate].
  rewrite String.eqb_eq. split; congruence.
Qed.

(** C4.  On a page the script was loaded on, at any later moment and for
    whatever consent is stored then, [readyToTrack] returns exactly
    NOT doNotTrack AND (consent not required OR consent granted) AND site id
    non-empty AND endpoint non-empty.  Here doNotTrack is the do-not-track
    signal of the platform, one of [N.doNotTrack], [N.msDoNotTrack],
    [W.doNotTrack] equal to ['1'], as the script read it when it was loaded
    (and so the signal of the moment whenever the indicators have not
    changed since); consent is granted when [localStorage] is readable and
    holds a truthy value under [cc_consent_granted]; site id and endpoint
    are those of the configuration. *)
Theorem readyToTrack_formula (c : Config) (u : list (string * string))
    (env0 : Env) (m : gmap string Stored) (st0 : State)
    (turns : list (Env * Action)) (env : Env) :
  load c u env0 m = Some st0 ->
  readyToTrack env (run turns st0)
  = spec_isTrackingAllowed
      (is_enabled (nav_doNotTrack env0) || is_enabled (nav_msDoNotTrack env0)
       || is_enabled (win_doNotTrack env0))
      (negb (consentRequired c))
      (consent_granted env (run turns st0))
      (nonempty (siteId c)) (nonempty (endpoint c))
  /\ (readyToTrack env (run turns st0) = true <->
      ~ (nav_doNotTrack env0 = Some "1" \/ nav_msDoNotTrack env0 = Some "1"
         \/ win_doNotTrack env0 = Some "1")
      /\ (consentRequired c = false
          \/ (ls_ok env = true
              /\ exists v, storage (run turns st0) !! CONSENT_KEY = Some v
                           /\ stored_truthy v = true))
      /\ siteId c <> "" /\ endpoint c <> "")
  /\ (dnt_signal env = dnt_signal env0 ->
      readyToTrack env (run turns st0)
      = spec_isTrackingAllowed (dnt_signal env) (negb (consentRequired c))
          (consent_granted env (run turns st0))
          (nonempty (siteId c)) (nonempty (endpoint c))).
Proof.
  intros Hload.
  pose proof (static_run turns st0) as Hs. unfold static_view in Hs.
  injection Hs as Hc Hd _ _.
  rewrite (load_cfg _ _ _ _ _ Hload) in Hc.
  rewrite (load_samples_dnt _ _ _ _ _ Hload) in Hd.
  destruct (readyToTrack_state_formula env (run turns st0)) as [Heq Hiff].
  rewrite Hc, Hd in Heq, Hiff.
  split; [exact Heq|]. split; [|by intros ->].
  rewrite Hiff. unfold dnt_signal.
  rewrite <- !is_enabled_true.
  destruct (is_enabled (nav_doNotTrack env0)),
    (is_enabled (nav_msDoNotTrack env0)), (is_enabled (win_doNotTrack env0));
    cbn [orb]; intuition discriminate.
Qed.

Lemma readyToTrack_formula_witness :
  readyToTrack Demo.env0 (run [(Demo.env0, ConsentGranted)] Demo.st_consent)
  = true
  /\ readyToTrack Demo.env0 (run [] Demo.st_dnt) = false.
Proof.
  split.
  - destruct (readyToTrack_formula Demo.cfg_consent [] Demo.env0 ∅
                Demo.st_consent [(Demo.env0, ConsentGranted)] Demo.env0)
      as [H _]; [reflexivity|].
    rewrite H. reflexivity.
  - destruct (readyToTrack_formula Demo.cfg0 [] Demo.env_dnt ∅
                Demo.st_dnt [] Demo.env0) as [H _]; [reflexivity|].
    rewrite H. reflexivity.
Defined.

(** C7, as stated, fails.  The script is loaded while do-not-track is off;
    the indicator is then switched on; the gate, called under both
    environments, answers [true] both times: the later call does not
    return [false]. *)
Lemma dnt_change_after_load_ignored :
  load Demo.cfg0 [] Demo.env0 ∅ = Some Demo.st0
  /\ dnt_signal Demo.env0 = false
  /\ dnt_signal Demo.env_dnt = true
  /\ readyToTrack Demo.env0 Demo.st0 = true
  /\ readyToTrack Demo.env_dnt Demo.st0 = true.
Proof. repeat split. Qed.

(** C7, amended.  The gate is evaluated on every call and reads the consent
    entry of [localStorage] as it is at that moment: right after
    [consentGranted] the consent input is true.  The do-not-track input is
    the sample taken when the script was loaded: no turn of the page changes
    it, and two environments that differ in their do-not-track indicators
    (and in anything else but the availability of storage) give the same
    answer on the same state. *)
Theorem gate_rereads_consent_not_dnt (env env' : Env)
    (turns : list (Env * Action)) (st : State) :
  dnt (run turns st) = dnt st
  /\ (ls_ok env' = ls_ok env -> readyToTrack env' st = readyToTrack env st)
  /\ (ls_ok env = true ->
      readyToTrack env (API_consentGranted env st)
      = spec_isTrackingAllowed (dnt st) (negb (consentRequired (cfg st))) true
          (nonempty (siteId (cfg st))) (nonempty (endpoint (cfg st)))).
Proof.
  split; [|split].
  - pose proof (static_run turns st) as H. unfold static_view in H.
    by injection H as _ -> _ _.
  - intros Hls.
    unfold readyToTrack, hasConsent, consent_granted, ls_get.
    by rewrite Hls.
  - intros Hls.
    unfold API_consentGranted, ls_set, readyToTrack, hasConsent,
      consent_granted, ls_get, spec_isTrackingAllowed.
    rewrite Hls. simpl. by rewrite lookup_insert_eq.
Qed.

Lemma gate_rereads_consent_not_dnt_witness :
  dnt (run [(Demo.env_dnt, Enqueue "pageview" (JObj []))] Demo.st0)
  = dnt Demo.st0
  /\ readyToTrack Demo.env_dnt Demo.st0 = readyToTrack Demo.env0 Demo.st0
  /\ readyToTrack Demo.env0 (API_consentGranted Demo.env0 Demo.st_consent)
     = true.
Proof.
  destruct (gate_rereads_consent_not_dnt Demo.env0 Demo.env_dnt
              [(Demo.env_dnt, Enqueue "pageview" (JObj []))] Demo.st0)
    as (H1 & H2 & _).
  destruct (gate_rereads_consent_not_dnt Demo.env0 Demo.env0 []
              Demo.st_consent) as (_ & _ & H3).
  split; [exact H1|]. split; [apply H2; reflexivity|].
  rewrite H3; reflexivity.
Defined.

(** ** Sessions *)

Lemma storage_ls_set env k v st :
  ls_ok env = true -> storage (ls_set env k v st) = <[k := v]> (storage st).
Proof. intros H. unfold ls_set. by rewrite H. Qed.

Lemma toString16_digit (v : Z) : exists c, toString16 v = String c EmptyString.
Proof.
  destruct v as [|p|p]; [by eexists| |by eexists].
  do 4 (try destruct p as [p|p|]); by eexists.
Qed.

Lemma digit_append (d : ascii) (out : string) :
  (String d EmptyString ++ out)%string = String d out.
Proof. reflexivity. Qed.

Lemma uuid_replace_length (tmpl : string) (rnd : nat -> Z) (i : nat) :
  String.length (fst (uuid_replace tmpl rnd i)) = String.length tmpl.
Proof.
  revert i. induction tmpl as [|c tmpl IH]; intros i; [reflexivity|].
  simpl.
  destruct (Ascii.eqb c "x"); [|destruct (Ascii.eqb c "y")].
  - specialize (IH (S i)). destruct (uuid_replace tmpl rnd (S i)) as [out j].
    destruct (toString16_digit (rnd i)) as [d ->]. rewrite digit_append. simpl in *.
    by rewrite IH.
  - specialize (IH (S i)). destruct (uuid_replace tmpl rnd (S i)) as [out j].
    destruct (toString16_digit (Z.lor (Z.land (rnd i) 3) 8)) as [d ->].
    rewrite digit_append. simpl in *. by rewrite IH.
  - specialize (IH i). destruct (uuid_replace tmpl rnd i) as [out j].
    simpl in *. by rewrite IH.
Qed.

Lemma uuid_drawn env st : drawn (snd (uuid env st)) = (drawn st + 31)%nat.
Proof.
  rewrite uuid_state. simpl.
  transitivity (Nat.iter 31 S (drawn st)); [reflexivity|]. simpl. lia.
Qed.

Lemma uuid_length env st : String.length (fst (uuid env st)) = 36%nat.
Proof.
  pose proof (uuid_replace_length "xxxxxxxx-xxxx-4xxx-yxxx-xxxxxxxxxxxx"
                (entropy env) (drawn st)) as Hl.
  unfold uuid. by destruct (uuid_replace _ _ _).
Qed.

Lemma drawn_ls_set env k v st : drawn (ls_set env k v st) = drawn st.
Proof. unfold ls_set. by destruct (ls_ok env). Qed.

(** [getSessionId] on a stored session that the expiry test keeps. *)
Lemma getSessionId_keeps env st s :
  ls_ok env = true ->
  storage st !! SID_KEY = Some (SSession s) ->
  s_id s <> "" ->
  now env - s_last s <= sessionTimeoutMs (cfg st) ->
  getSessionId env st
  = (s_id s,
     ls_set env SID_KEY
       (SSession {| s_id := s_id s; s_started := s_started s;
                    s_last := now env |}) st).
Proof.
  intros Hls Hs Hid Hle.
  unfold getSessionId, ls_get, live_session. rewrite Hls, Hs, or_zero_id.
  apply nonempty_true in Hid. rewrite Hid. simpl.
  destruct (Z.ltb_spec (sessionTimeoutMs (cfg st)) (now env - s_last s));
    [lia|reflexivity].
Qed.

(** [getSessionId] on a stored session that the expiry test rejects. *)
Lemma getSessionId_rotates env st s :
  ls_ok env = true ->
  storage st !! SID_KEY = Some (SSession s) ->
  sessionTimeoutMs (cfg st) < now env - s_last s ->
  getSessionId env st
  = (fst (uuid env st),
     ls_set env SID_KEY
       (SSession {| s_id := fst (uuid env st); s_started := now env;
                    s_last := now env |}) (snd (uuid env st))).
Proof.
  intros Hls Hs Hgt.
  unfold getSessionId, ls_get, live_session. rewrite Hls, Hs, or_zero_id.
  destruct (Z.ltb_spec (sessionTimeoutMs (cfg st)) (now env - s_last s));
    [|lia].
  rewrite orb_true_r. by destruct (uuid env st).
Qed.

(** C2, as stated, fails.  The stored session carries the very id that
    [uuid()] builds from the next random values; the read comes at
    [last + sessionTimeoutMs + 1], the session has expired, and the id
    returned is the stored one: not a different id. *)
Lemma expired_read_can_repeat_id :
  let env := Demo.at_time (5000 + 1800000 + 1) Demo.env0 in
  ls_ok env = true
  /\ storage Pages.st_twin !! SID_KEY = Some (SSession Pages.session_twin)
  /\ now env
     = s_last Pages.session_twin + sessionTimeoutMs (cfg Pages.st_twin) + 1
  /\ fst (getSessionId env Pages.st_twin) = s_id Pages.session_twin.
Proof. vm_compute. repeat split. Qed.

(** C2, amended.  For a stored session [s] (with its [id]) and a call at
    time [now]: if [now - last <= sessionTimeoutMs] the call returns the
    stored id, writes the session back with [last = now] and nothing else
    changed, and draws no random value; if [now - last > sessionTimeoutMs]
    it returns the id that [uuid()] builds from the next 31 random values,
    a string of 36 characters, and writes a session with that id and
    [started = last = now].  So a read at [last + sessionTimeoutMs - 1]
    keeps the id and a read at [last + sessionTimeoutMs + 1] returns the
    generated one.  The generated id is not compared with the stored one:
    the stored id is returned exactly when the session has not expired or
    [uuid()] has reproduced it. *)
Theorem getSessionId_expiry (env : Env) (st : State) (s : Session) :
  ls_ok env = true ->
  storage st !! SID_KEY = Some (SSession s) ->
  s_id s <> "" ->
  let T := sessionTimeoutMs (cfg st) in
  let r := getSessionId env st in
  (now env - s_last s <= T ->
   fst r = s_id s
   /\ storage (snd r) !! SID_KEY
      = Some (SSession {| s_id := s_id s; s_started := s_started s;
                          s_last := now env |})
   /\ drawn (snd r) = drawn st)
  /\ (now env - s_last s > T ->
      fst r = fst (uuid env st)
      /\ storage (snd r) !! SID_KEY
         = Some (SSession {| s_id := fst (uuid env st); s_started := now env;
                             s_last := now env |})
      /\ drawn (snd r) = (drawn st + 31)%nat
      /\ String.length (fst r) = 36%nat)
  /\ (now env = s_last s + T - 1 -> fst r = s_id s)
  /\ (now env = s_last s + T + 1 -> fst r = fst (uuid env st))
  /\ (fst r = s_id s <->
      now env - s_last s <= T \/ fst (uuid env st) = s_id s).
Proof.
  intros Hls Hs Hid T r.
  assert (Hkeep : now env - s_last s <= T ->
            fst r = s_id s
            /\ storage (snd r) !! SID_KEY
               = Some (SSession {| s_id := s_id s; s_started := s_started s;
                                   s_last := now env |})
            /\ drawn (snd r) = drawn st).
  { intros Hle. subst r. rewrite (getSessionId_keeps env st s) by assumption.
    cbn [fst snd]. split; [reflexivity|]. split; [|apply drawn_ls_set].
    rewrite storage_ls_set by assumption. apply lookup_insert_eq. }
  assert (Hrot : now env - s_last s > T ->
            fst r = fst (uuid env st)
            /\ storage (snd r) !! SID_KEY
               = Some (SSession {| s_id := fst (uuid env st);
                                   s_started := now env; s_last := now env |})
            /\ drawn (snd r) = (drawn st + 31)%nat
            /\ String.length (fst r) = 36%nat).
  { intros Hgt. subst r. rewrite (getSessionId_rotates env st s);
      [|assumption|assumption|fold T; lia].
    cbn [fst snd]. split; [reflexivity|].
    split; [rewrite storage_ls_set by assumption; apply lookup_insert_eq|].
    split; [by rewrite drawn_ls_set, uuid_drawn|apply uuid_length]. }
  split; [exact Hkeep|]. split; [exact Hrot|].
  split; [intros Hn; apply Hkeep; lia|].
  split; [intros Hn; apply Hrot; lia|].
  destruct (Z.le_gt_cases (now env - s_last s) T) as [Hle|Hgt].
  - destruct (Hkeep Hle) as [Hr _]. split; [by left|by intros _].
  - destruct Hrot as [Hr _]; [lia|]. rewrite Hr. split; [by right|].
    intros [Hle|Hu]; [lia|exact Hu].
Qed.

Lemma getSessionId_expiry_witness :
  fst (getSessionId (Demo.at_time (5000 + 1800000 - 1) Demo.env0)
         Demo.st_session)
  = s_id Demo.session_A
  /\ fst (getSessionId (Demo.at_time (5000 + 1800000 + 1) Demo.env0)
            Demo.st_session)
     = "01234567-89ab-4cde-b012-3456789abcde".
Proof.
  split.
  - pose proof (getSessionId_expiry
                  (Demo.at_time (5000 + 1800000 - 1) Demo.env0)
                  Demo.st_session Demo.session_A eq_refl eq_refl) as H.
    destruct H as (_ & _ & H & _); [discriminate|].
    apply H; reflexivity.
  - pose proof (getSessionId_expiry
                  (Demo.at_time (5000 + 1800000 + 1) Demo.env0)
                  Demo.st_session Demo.session_A eq_refl eq_refl) as H.
    destruct H as (_ & _ & _ & H & _); [discriminate|].
    rewrite H; reflexivity.
Defined.


(** The boundary itself: with timeout 1000, reads at 0 and 500 touch the
    session, the read at 1500 is exactly [last + 1000] and keeps the id, the
    read at 2501 rotates it. *)
Example session_boundary :
  let c := {| siteId := "site-1"; endpoint := "https://collector.example/ingest";
              consentRequired := false; sessionTimeoutMs := 1000;
              maxBatch := 20 |} in
  let st := Demo.with_cfg c Demo.st0 in
  let r0 := getSessionId (Demo.at_time 0 Demo.env0) st in
  let r1 := getSessionId (Demo.at_time 500 Demo.env0) (snd r0) in
  let r2 := getSessionId (Demo.at_time 1500 Demo.env0) (snd r1) in
  let r3 := getSessionId (Demo.at_time 2501 Demo.env0) (snd r2) in
  fst r0 = fst r1 /\ fst r1 = fst r2 /\ fst r2 <> fst r3.
Proof.
  vm_compute. split; [reflexivity|]. split; [reflexivity|].
  intros H. discriminate H.
Qed.

(** ** Referrer trail *)

Lemma trail_push_last ref (trail : list string) :
  last (trail_push ref trail) = Some ref.
Proof.
  unfold trail_push.
  destruct (Nat.ltb_spec 5 (length (trail ++ [ref]))) as [Hlt|_].
  - destruct trail as [|a rest]; [simpl in Hlt; lia|].
    simpl. apply last_snoc.
  - apply last_snoc.
Qed.

Lemma trail_push_length ref (trail : list string) :
  (length trail <= 5)%nat -> (length (trail_push ref trail) <= 5)%nat.
Proof.
  intros Hlen. unfold trail_push.
  destruct (Nat.ltb_spec 5 (length (trail ++ [ref]))) as [Hlt|Hle];
    [|exact Hle].
  destruct trail as [|a rest]; simpl in *; [lia|].
  rewrite length_app. simpl. lia.
Qed.

Lemma trail_accepts_after_last ref (trail : list string) :
  last trail = Some ref -> trail_accepts ref trail = false.
Proof.
  intros Hl. unfold trail_accepts.
  rewrite bool_decide_eq_true_2 by exact Hl.
  destruct trail; [discriminate|]. simpl. apply andb_false_r.
Qed.

Lemma trail_accepts_new ref prev (trail : list string) :
  ref <> "" -> last trail = Some prev -> prev <> ref ->
  trail_accepts ref trail = true.
Proof.
  intros Hne Hl Hd. unfold trail_accepts.
  apply nonempty_true in Hne. rewrite Hne.
  rewrite bool_decide_eq_false_2 by (rewrite Hl; congruence).
  simpl. apply orb_true_r.
Qed.

Lemma trail_append_last ref (trail : list string) :
  ref <> "" -> last (trail_append ref trail) = Some ref.
Proof.
  intros Hne. unfold trail_append.
  destruct (trail_accepts ref trail) eqn:Ha; [apply trail_push_last|].
  unfold trail_accepts in Ha. apply nonempty_true in Hne. rewrite Hne in Ha.
  simpl in Ha. apply orb_false_iff in Ha as [_ Ha].
  apply negb_false_iff, bool_decide_eq_true in Ha. exact Ha.
Qed.

Lemma five_pushes r2 r3 r4 r5 r6 (trail : list string) :
  (length trail <= 5)%nat ->
  trail_push r6 (trail_push r5 (trail_push r4 (trail_push r3
    (trail_push r2 trail)))) = [r2; r3; r4; r5; r6].
Proof.
  intros Hlen.
  destruct trail as [|a [|b [|c [|d [|e [|f rest]]]]]];
    try reflexivity.
  simpl in Hlen. lia.
Qed.

(** C6.  On a trail of at most 5 entries the load-time block keeps the
    length at most 5; when it appends to a full trail the oldest entry is
    the one that leaves; it appends nothing when the referrer equals the
    last entry, so appending the same referrer twice in a row gives the same
    trail as appending it once; and after six distinct referrers the trail
    holds the last five, the first of them evicted. *)
Theorem trail_append_bounded_fifo (ref : string) (trail : list string) :
  (length trail <= 5)%nat ->
  (length (trail_append ref trail) <= 5)%nat
  /\ (trail_accepts ref trail = true ->
      ((length trail < 5)%nat -> trail_append ref trail = trail ++ [ref])
      /\ (length trail = 5%nat -> trail_append ref trail = tail trail ++ [ref]))
  /\ (last trail = Some ref -> trail_append ref trail = trail)
  /\ (trail_append ref trail <> trail -> last trail <> Some ref)
  /\ trail_append ref (trail_append ref trail) = trail_append ref trail
  /\ (forall r1 r2 r3 r4 r5 r6 : string,
        NoDup [r1; r2; r3; r4; r5; r6] ->
        Forall (fun r => r <> "") [r1; r2; r3; r4; r5; r6] ->
        trail_after [r1; r2; r3; r4; r5; r6] trail = [r2; r3; r4; r5; r6]
        /\ r1 ∉ trail_after [r1; r2; r3; r4; r5; r6] trail).
Proof.
  intros Hlen.
  assert (Hsame : last trail = Some ref -> trail_append ref trail = trail).
  { intros Hl. unfold trail_append.
    by rewrite trail_accepts_after_last. }
  split; [|split; [|split; [|split; [|split]]]].
  - unfold trail_append. destruct (trail_accepts ref trail); [|exact Hlen].
    by apply trail_push_length.
  - intros Ha. unfold trail_append, trail_push. rewrite Ha.
    rewrite length_app. simpl. split.
    + intros Hlt. destruct (Nat.ltb_spec 5 (length trail + 1)); [lia|reflexivity].
    + intros H5. destruct (Nat.ltb_spec 5 (length trail + 1)); [|lia].
      destruct trail; [discriminate|reflexivity].
  - exact Hsame.
  - intros Hchg Hl. apply Hchg, Hsame, Hl.
  - destruct (trail_accepts ref trail) eqn:Ha.
    + assert (Hp : trail_append ref trail = trail_push ref trail)
        by (unfold trail_append; by rewrite Ha).
      rewrite Hp. unfold trail_append.
      by rewrite (trail_accepts_after_last ref (trail_push ref trail))
        by apply trail_push_last.
    + assert (Hp : trail_append ref trail = trail)
        by (unfold trail_append; by rewrite Ha).
      by rewrite !Hp.
  - intros r1 r2 r3 r4 r5 r6 Hnd Hne.
    assert (Heq : trail_after [r1; r2; r3; r4; r5; r6] trail
                  = [r2; r3; r4; r5; r6]).
    { apply NoDup_cons in Hnd as [H1 Hnd]. apply NoDup_cons in Hnd as [H2 Hnd].
      apply NoDup_cons in Hnd as [H3 Hnd]. apply NoDup_cons in Hnd as [H4 Hnd].
      apply NoDup_cons in Hnd as [H5 _].
      apply Forall_cons in Hne as [N1 Hne]. apply Forall_cons in Hne as [N2 Hne].
      apply Forall_cons in Hne as [N3 Hne]. apply Forall_cons in Hne as [N4 Hne].
      apply Forall_cons in Hne as [N5 Hne]. apply Forall_cons in Hne as [N6 _].
      unfold trail_after. simpl.
      set (t1 := trail_append r1 trail).
      assert (L1 : last t1 = Some r1) by by apply trail_append_last.
      assert (B1 : (length t1 <= 5)%nat).
      { unfold t1, trail_append.
        destruct (trail_accepts r1 trail); [by apply trail_push_length|exact Hlen]. }
      unfold trail_append at 5.
      rewrite (trail_accepts_new r2 r1 t1) by (try assumption; set_solver).
      unfold trail_append at 4.
      rewrite (trail_accepts_new r3 r2) by
        (try assumption; try apply trail_push_last; set_solver).
      unfold trail_append at 3.
      rewrite (trail_accepts_new r4 r3) by
        (try assumption; try apply trail_push_last; set_solver).
      unfold trail_append at 2.
      rewrite (trail_accepts_new r5 r4) by
        (try assumption; try apply trail_push_last; set_solver).
      unfold trail_append.
      rewrite (trail_accepts_new r6 r5) by
        (try assumption; try apply trail_push_last; set_solver).
      by apply five_pushes. }
    split; [exact Heq|].
    rewrite Heq. apply NoDup_cons in Hnd as [H1 _]. exact H1.
Qed.

Lemma trail_append_bounded_fifo_witness :
  (length (trail_append "https://f.example/" ["a"; "b"; "c"; "d"; "e"]) <= 5)%nat
  /\ trail_after ["r1"; "r2"; "r3"; "r4"; "r5"; "r6"] ["a"; "b"; "c"; "d"; "e"]
     = ["r2"; "r3"; "r4"; "r5"; "r6"].
Proof.
  pose proof (trail_append_bounded_fifo "https://f.example/"
                ["a"; "b"; "c"; "d"; "e"]) as H1.
  pose proof (trail_append_bounded_fifo "x" ["a"; "b"; "c"; "d"; "e"]) as H2.
  split.
  - apply H1. simpl. lia.
  - destruct H2 as (_ & _ & _ & _ & _ & H2); [simpl; lia|].
    apply (H2 "r1" "r2" "r3" "r4" "r5" "r6").
    + apply (bool_decide_unpack _). vm_compute. exact I.
    + repeat (apply Forall_cons; split; [discriminate|]). apply Forall_nil_2.
Defined.

Lemma load_trail c u env m st old :
  ls_ok env = true -> m !! REF_KEY = Some (STrail old) ->
  load c u env m = Some st ->
  refTrail st = trail_append (referrer env) old
  /\ (trail_accepts (referrer env) old = true ->
      storage st !! REF_KEY = Some (STrail (trail_append (referrer env) old))).
Proof.
  intros Hls Hm. unfold load, ls_get. simpl. rewrite Hls, Hm.
  destruct (trail_accepts (referrer env) old) eqn:Ha; intros H;
    injection H as <-.
  - unfold ls_set. rewrite Hls. simpl. split; [reflexivity|].
    intros _. apply lookup_insert_eq.
  - simpl. split; [reflexivity|discriminate].
Qed.

(** ** Flush *)

Lemma readyToTrack_gate env st st' :
  gate_view st' = gate_view st -> readyToTrack env st' = readyToTrack env st.
Proof.
  unfold gate_view. intros H. injection H as Hc Hd Hk.
  unfold readyToTrack, hasConsent, consent_granted, ls_get.
  by rewrite Hc, Hd, Hk.
Qed.

Lemma gate_script_view st st' :
  script_view st' = script_view st -> gate_view st' = gate_view st.
Proof.
  unfold script_view, gate_view. intros H.
  injection H as -> -> _ _ _ _ _ _ _ ->. reflexivity.
Qed.

Lemma flush_skips_iff env st :
  flush_skips env st = true <->
  readyToTrack env st = false \/ flushing st = true \/ queue st = [].
Proof.
  unfold flush_skips.
  rewrite !orb_true_iff, negb_true_iff, Nat.eqb_eq, length_zero_iff_nil.
  tauto.
Qed.

Lemma flush_skips_false env st :
  readyToTrack env st = true -> flushing st = false -> queue st <> [] ->
  flush_skips env st = false.
Proof.
  intros Hr Hf Hq. destruct (flush_skips env st) eqn:Hs; [|reflexivity].
  apply flush_skips_iff in Hs as [?|[?|?]]; congruence.
Qed.

Lemma flush_noop env st :
  flush_skips env st = true -> flush env st = (st, Done).
Proof. intros H. unfold flush. by rewrite H. Qed.

Lemma flush_runs env st :
  flush_skips env st = false ->
  flush env st = flush_send env (queue st) (set_queue [] (set_flushing true st)).
Proof. intros H. unfold flush. by rewrite H. Qed.

Lemma flush_fallback env st :
  flush_skips env st = false ->
  has_Blob env = true -> beacon_ok env = false -> has_fetch env = true ->
  flush env st
  = (set_pending (pending st ++ [queue st])
       (set_wire (wire st ++ [Posted (queue st)])
          (set_queue [] (set_flushing true st))), Done).
Proof.
  intros Hs Hb Hk Hf. rewrite flush_runs by exact Hs.
  unfold flush_send. by rewrite Hb, Hk, Hf.
Qed.

Lemma flush_beacon env st :
  flush_skips env st = false ->
  has_Blob env = true -> beacon_ok env = true ->
  flush env st
  = (set_flushing false
       (set_wire (wire st ++ [Beaconed (queue st)])
          (set_queue [] (set_flushing true st))), Done).
Proof.
  intros Hs Hb Hk. rewrite flush_runs by exact Hs.
  unfold flush_send. by rewrite Hb, Hk.
Qed.

(** [enqueue] past the gate, on a platform with [Intl]: the record is built
    and pushed, and the batch-size test decides whether [flush] is called. *)
Lemma enqueue_open env type payload st :
  readyToTrack env st = true -> has_Intl env = true ->
  exists ev st1,
    baseEvent env type payload st = (st1, inr ev)
    /\ ev_t ev = type /\ ev_payload ev = payload
    /\ script_view st1 = script_view st
    /\ enqueue env type payload st
       = if Z.leb (maxBatch (cfg st)) (Z.of_nat (length (queue st ++ [ev])))
         then flush env (set_queue (queue st ++ [ev]) st1)
         else (set_queue (queue st ++ [ev]) st1, Done).
Proof.
  intros Hr HI.
  destruct (baseEvent_record env type payload st HI) as (ev & Hev & Ht & Hp).
  pose proof (view_baseEvent env type payload st) as Hv.
  destruct (baseEvent env type payload st) as [st1 res] eqn:Hb.
  simpl in Hev, Hv. subst res.
  exists ev, st1. repeat (split; [assumption || reflexivity|]).
  unfold enqueue. rewrite Hr, Hb. simpl.
  unfold script_view in Hv. injection Hv as Hc _ _ _ Hq _ _ _ _ _.
  by rewrite Hc, Hq.
Qed.

Lemma settle_last_response (status : Z) (st : State) (batch : list EventRecord)
    (older : list (list EventRecord)) :
  pending st = older ++ [batch] ->
  settle (length older) (Response status) st
  = set_flushing false (set_pending older st).
Proof.
  intros Hp. unfold settle. rewrite Hp.
  rewrite list_lookup_middle by reflexivity.
  replace (delete (length older) (older ++ [batch])) with older; [reflexivity|].
  rewrite delete_middle. by rewrite app_nil_r.
Qed.

Lemma settle_last_error (st : State) (batch : list EventRecord)
    (older : list (list EventRecord)) :
  pending st = older ++ [batch] ->
  settle (length older) NetworkError st
  = set_flushing false (set_queue (batch ++ queue st) (set_pending older st)).
Proof.
  intros Hp. unfold settle. rewrite Hp.
  rewrite list_lookup_middle by reflexivity.
  replace (delete (length older) (older ++ [batch])) with older; [reflexivity|].
  rewrite delete_middle. by rewrite app_nil_r.
Qed.

(** [enqueue] while a flush is in progress: the record is queued and nothing
    else moves, whatever the batch size. *)
Lemma enqueue_while_flushing env type payload st :
  readyToTrack env st = true -> has_Intl env = true -> flushing st = true ->
  exists ev st1,
    ev_t ev = type /\ ev_payload ev = payload
    /\ script_view st1 = script_view st
    /\ enqueue env type payload st = (set_queue (queue st ++ [ev]) st1, Done).
Proof.
  intros Hr HI Hf.
  destruct (enqueue_open env type payload st Hr HI)
    as (ev & st1 & _ & Ht & Hp & Hv & He).
  exists ev, st1. repeat (split; [assumption|]).
  rewrite He. destruct (Z.leb _ _); [|reflexivity].
  apply flush_noop, flush_skips_iff. right; left. simpl.
  unfold script_view in Hv. by injection Hv as _ _ _ _ _ -> _ _ _ _.
Qed.

(** C5.  [flush] returns at once, with the state (queue, flag, requests
    sent) untouched, when the gate denies, when a flush is in progress or
    when the queue is empty.  Otherwise it sets the flag and takes every
    queued record as one batch, leaving the queue empty, and goes on to send
    that batch.  When the send is the fallback request, the flag stays set
    while the request is pending; a record enqueued meanwhile goes to the
    queue, not to the pending batch and not to the wire, and it is still
    queued, with the flag cleared, once the request has succeeded. *)
Theorem flush_guard_and_snapshot (env : Env) (st : State) :
  (readyToTrack env st = false \/ flushing st = true \/ queue st = [] ->
   flush env st = (st, Done))
  /\ (readyToTrack env st = true -> flushing st = false -> queue st <> [] ->
      fst (flush_take st) = queue st
      /\ flushing (snd (flush_take st)) = true
      /\ queue (snd (flush_take st)) = []
      /\ flush env st = flush_send env (queue st) (snd (flush_take st))
      /\ (has_Blob env = true -> beacon_ok env = false -> has_fetch env = true ->
          let st1 := fst (flush env st) in
          queue st1 = [] /\ flushing st1 = true
          /\ pending st1 = pending st ++ [queue st]
          /\ wire st1 = wire st ++ [Posted (queue st)]
          /\ forall (env' : Env) (type : string) (payload : JsValue),
               readyToTrack env' st = true -> has_Intl env' = true ->
               let st2 := fst (enqueue env' type payload st1) in
               exists ev,
                 queue st2 = [ev] /\ ev_t ev = type /\ ev_payload ev = payload
                 /\ pending st2 = pending st1 /\ wire st2 = wire st1
                 /\ forall status : Z,
                      let st3 := settle (length (pending st))
                                   (Response status) st2 in
                      queue st3 = [ev] /\ flushing st3 = false
                      /\ fst (flush_take st3) = [ev])).
Proof.
  split.
  - intros H. by apply flush_noop, flush_skips_iff.
  - intros Hr Hf Hq.
    pose proof (flush_skips_false env st Hr Hf Hq) as Hs.
    split; [reflexivity|]. split; [reflexivity|]. split; [reflexivity|].
    split; [by apply flush_runs|].
    intros Hb Hk Hfe. rewrite (flush_fallback env st) by assumption.
    simpl. repeat (split; [reflexivity|]).
    intros env' type payload Hr' HI.
    set (st1 := set_pending _ _).
    assert (Hr1 : readyToTrack env' st1 = true).
    { rewrite <- Hr'. by apply readyToTrack_gate. }
    destruct (enqueue_while_flushing env' type payload st1 Hr1 HI eq_refl)
      as (ev & st1' & Ht & Hp & Hv & He).
    rewrite He. simpl. exists ev.
    unfold script_view in Hv.
    injection Hv as _ _ _ _ Hq' _ Hpe Hw _ _. simpl in Hq', Hpe, Hw.
    repeat (split; [assumption || reflexivity|]).
    intros status.
    rewrite (settle_last_response status _ (queue st) (pending st))
      by exact Hpe.
    simpl. repeat split.
Qed.

Lemma flush_guard_and_snapshot_witness :
  flush Demo.env0 Demo.st0 = (Demo.st0, Done)
  /\ fst (flush_take Demo.st_one) = queue Demo.st_one
  /\ flushing (snd (flush_take Demo.st_one)) = true
  /\ queue (fst (flush Demo.env0 Demo.st_one)) = []
  /\ pending (fst (flush Demo.env0 Demo.st_one)) = [queue Demo.st_one].
Proof.
  destruct (flush_guard_and_snapshot Demo.env0 Demo.st0) as [H0 _].
  destruct (flush_guard_and_snapshot Demo.env0 Demo.st_one) as [_ H1].
  split; [apply H0; right; right; reflexivity|].
  destruct H1 as (Ha & Hb & _ & _ & Hc);
    [reflexivity|reflexivity|discriminate|].
  destruct Hc as (Hq & _ & Hp & _); [reflexivity|reflexivity|reflexivity|].
  split; [exact Ha|]. split; [exact Hb|]. split; [exact Hq|exact Hp].
Defined.

(** ** Enqueue and the batch size *)

(** C3, as stated, fails.  The fallback request of an earlier flush is
    pending, 19 records are queued and tracking is allowed; the next
    [enqueue] brings the queue to the batch size of 20 and returns with all
    20 records still queued. *)
Lemma enqueue_at_max_during_flush :
  readyToTrack Demo.env0 Demo.st_busy = true
  /\ maxBatch (cfg Demo.st_busy) = 20
  /\ length (queue Demo.st_busy) = 19%nat
  /\ flushing Demo.st_busy = true
  /\ snd (enqueue Demo.env0 "hb" (JObj []) Demo.st_busy) = Done
  /\ length (queue (fst (enqueue Demo.env0 "hb" (JObj []) Demo.st_busy)))
     = 20%nat.
Proof. vm_compute. repeat split. Qed.

Lemma enqueue_at_max env type payload st :
  readyToTrack env st = true -> has_Intl env = true ->
  flushing st = false ->
  maxBatch (cfg st) <= Z.of_nat (length (queue st)) + 1 ->
  has_Blob env = true -> beacon_ok env = true \/ has_fetch env = true ->
  snd (enqueue env type payload st) = Done
  /\ queue (fst (enqueue env type payload st)) = []
  /\ exists ev,
       ev_t ev = type /\ ev_payload ev = payload
       /\ (wire (fst (enqueue env type payload st))
           = wire st ++ [Beaconed (queue st ++ [ev])]
           \/ wire (fst (enqueue env type payload st))
              = wire st ++ [Posted (queue st ++ [ev])]).
Proof.
  intros Hr HI Hf Hmax Hb Hsend.
  destruct (enqueue_open env type payload st Hr HI)
    as (ev & st1 & _ & Ht & Hp & Hv & He).
  rewrite He. clear He.
  destruct (Z.leb_spec (maxBatch (cfg st)) (Z.of_nat (length (queue st ++ [ev]))))
    as [_|Hlt]; [|rewrite length_app in Hlt; simpl in Hlt; lia].
  set (st2 := set_queue (queue st ++ [ev]) st1).
  pose proof (gate_script_view _ _ Hv) as Hg.
  unfold script_view in Hv. injection Hv as _ _ _ _ _ Hfl _ Hw _ _.
  assert (Hs : flush_skips env st2 = false).
  { apply flush_skips_false.
    - rewrite <- Hr. by apply readyToTrack_gate.
    - simpl. congruence.
    - simpl. by destruct (queue st). }
  destruct (beacon_ok env) eqn:Hk.
  - rewrite (flush_beacon env st2) by assumption. simpl.
    split; [reflexivity|]. split; [reflexivity|].
    exists ev. rewrite Hw. auto.
  - destruct Hsend as [?|Hfe]; [discriminate|].
    rewrite (flush_fallback env st2) by assumption. simpl.
    split; [reflexivity|]. split; [reflexivity|].
    exists ev. rewrite Hw. auto.
Qed.

Lemma enqueue_below_max env type payload st :
  readyToTrack env st = true -> has_Intl env = true ->
  Z.of_nat (length (queue st)) + 1 < maxBatch (cfg st) ->
  exists ev st1,
    ev_t ev = type /\ ev_payload ev = payload
    /\ script_view st1 = script_view st
    /\ enqueue env type payload st = (set_queue (queue st ++ [ev]) st1, Done).
Proof.
  intros Hr HI Hlt.
  destruct (enqueue_open env type payload st Hr HI)
    as (ev & st1 & _ & Ht & Hp & Hv & He).
  exists ev, st1. repeat (split; [assumption|]).
  rewrite He.
  destruct (Z.leb_spec (maxBatch (cfg st)) (Z.of_nat (length (queue st ++ [ev]))))
    as [Hle|_]; [|reflexivity].
  rewrite length_app in Hle. simpl in Hle. lia.
Qed.

Lemma enqueue_turns_below_max (calls : list (Env * (string * JsValue))) :
  forall st : State,
    Forall (fun c => readyToTrack (fst c) st = true /\ has_Intl (fst c) = true)
      calls ->
    Z.of_nat (length (queue st) + length calls) < maxBatch (cfg st) ->
    exists new,
      queue (run (enqueue_turns calls) st) = queue st ++ new
      /\ produced new = map snd calls
      /\ wire (run (enqueue_turns calls) st) = wire st.
Proof.
  induction calls as [|[env [type payload]] rest IH]; intros st Hall Hlt.
  - exists []. simpl. by rewrite app_nil_r.
  - apply Forall_cons in Hall as [[Hr HI] Hall]. simpl in Hr, HI.
    simpl in Hlt.
    destruct (enqueue_below_max env type payload st Hr HI)
      as (ev & st1 & Ht & Hp & Hv & He); [lia|].
    simpl. rewrite He. simpl.
    set (st2 := set_queue (queue st ++ [ev]) st1).
    pose proof (gate_script_view _ _ Hv) as Hg.
    unfold script_view in Hv. injection Hv as Hc _ _ _ _ _ _ Hw _ _.
    destruct (IH st2) as (new & Hq & Hn & Hw').
    + eapply Forall_impl; [exact Hall|].
      intros c [Hcr HcI]. split; [|exact HcI].
      rewrite <- Hcr. by apply readyToTrack_gate.
    + simpl. rewrite Hc, length_app. simpl. lia.
    + exists (ev :: new). simpl in Hq, Hw'.
      rewrite Hq, <- app_assoc. split; [reflexivity|].
      split; [|congruence].
      simpl. by rewrite Ht, Hp, Hn.
Qed.

(** What the forced flush leaves behind on a platform that cannot send:
    the queue has been taken, and the call ends with the error of the
    missing global. *)
Lemma enqueue_at_max_queue env type payload st :
  readyToTrack env st = true -> has_Intl env = true ->
  flushing st = false ->
  maxBatch (cfg st) <= Z.of_nat (length (queue st)) + 1 ->
  queue (fst (enqueue env type payload st)) = []
  /\ (has_Blob env = false ->
      snd (enqueue env type payload st) = Thrown (ReferenceError "Blob")
      /\ wire (fst (enqueue env type payload st)) = wire st)
  /\ (has_Blob env = true -> beacon_ok env = false -> has_fetch env = false ->
      snd (enqueue env type payload st) = Thrown (ReferenceError "fetch")
      /\ wire (fst (enqueue env type payload st)) = wire st).
Proof.
  intros Hr HI Hf Hmax.
  destruct (enqueue_open env type payload st Hr HI)
    as (ev & st1 & _ & Ht & Hp & Hv & He).
  rewrite He. clear He.
  destruct (Z.leb_spec (maxBatch (cfg st)) (Z.of_nat (length (queue st ++ [ev]))))
    as [_|Hlt]; [|rewrite length_app in Hlt; simpl in Hlt; lia].
  set (st2 := set_queue (queue st ++ [ev]) st1).
  pose proof (gate_script_view _ _ Hv) as Hg.
  unfold script_view in Hv. injection Hv as _ _ _ _ _ Hfl _ Hw _ _.
  assert (Hs : flush_skips env st2 = false).
  { apply flush_skips_false.
    - rewrite <- Hr. by apply readyToTrack_gate.
    - simpl. congruence.
    - simpl. by destruct (queue st). }
  rewrite (flush_runs env st2 Hs). unfold flush_send.
  split; [|split].
  - by destruct (has_Blob env), (beacon_ok env), (has_fetch env).
  - intros ->. by simpl.
  - intros -> -> ->. by simpl.
Qed.

(** C3, amended.  Tracking is allowed and the platform has [Intl], so that
    the record can be built.  When no flush is in progress, an [enqueue]
    call that brings the queue length to the batch size or beyond calls
    [flush] before it ends, and [flush] takes the whole queue: the queue is
    empty afterwards.  Where [Blob] exists and the batch can be handed to
    [sendBeacon] or to [fetch], the call returns normally and the whole
    queue, the new record last, has been sent as one batch; where [Blob] is
    missing, or [sendBeacon] does not accept and [fetch] is missing, the
    call ends with a [ReferenceError] and nothing has been sent.  When a
    flush is in progress, as it is while an earlier fallback request is
    pending, the [flush] call does nothing: the call returns normally, the
    record is appended and every record stays queued, whatever the length
    of the queue, and the flag, the pending requests and the requests sent
    are as before.  From any queue, N calls that keep the length below the
    batch size leave the queue extended by exactly N records, in call order,
    each carrying the type and payload of its call, and send nothing. *)
Theorem enqueue_batch_size (st : State) :
  (forall (env : Env) (type : string) (payload : JsValue),
     readyToTrack env st = true -> has_Intl env = true ->
     flushing st = false ->
     maxBatch (cfg st) <= Z.of_nat (length (queue st)) + 1 ->
     let r := enqueue env type payload st in
     queue (fst r) = []
     /\ (has_Blob env = true -> beacon_ok env = true \/ has_fetch env = true ->
         snd r = Done
         /\ exists ev,
              ev_t ev = type /\ ev_payload ev = payload
              /\ (wire (fst r) = wire st ++ [Beaconed (queue st ++ [ev])]
                  \/ wire (fst r) = wire st ++ [Posted (queue st ++ [ev])]))
     /\ (has_Blob env = false ->
         snd r = Thrown (ReferenceError "Blob") /\ wire (fst r) = wire st)
     /\ (has_Blob env = true -> beacon_ok env = false ->
         has_fetch env = false ->
         snd r = Thrown (ReferenceError "fetch") /\ wire (fst r) = wire st))
  /\ (forall (env : Env) (type : string) (payload : JsValue),
        readyToTrack env st = true -> has_Intl env = true ->
        flushing st = true ->
        let r := enqueue env type payload st in
        snd r = Done
        /\ (exists ev,
              ev_t ev = type /\ ev_payload ev = payload
              /\ queue (fst r) = queue st ++ [ev])
        /\ flushing (fst r) = true
        /\ pending (fst r) = pending st
        /\ wire (fst r) = wire st)
  /\ (forall calls : list (Env * (string * JsValue)),
        Forall (fun c => readyToTrack (fst c) st = true
                         /\ has_Intl (fst c) = true) calls ->
        Z.of_nat (length (queue st) + length calls) < maxBatch (cfg st) ->
        exists new,
          queue (run (enqueue_turns calls) st) = queue st ++ new
          /\ length new = length calls
          /\ produced new = map snd calls
          /\ wire (run (enqueue_turns calls) st) = wire st).
Proof.
  split; [|split].
  - intros env type payload Hr HI Hf Hmax r. subst r.
    destruct (enqueue_at_max_queue env type payload st Hr HI Hf Hmax)
      as (Hq & Hblob & Hfetch).
    split; [exact Hq|]. split; [|split; assumption].
    intros Hb Hsend.
    by destruct (enqueue_at_max env type payload st Hr HI Hf Hmax Hb Hsend)
      as (Hd & _ & Hev).
  - intros env type payload Hr HI Hf r. subst r.
    destruct (enqueue_while_flushing env type payload st Hr HI Hf)
      as (ev & st1 & Ht & Hp & Hv & He).
    rewrite He. cbn [fst snd].
    unfold script_view in Hv. injection Hv as _ _ _ _ _ Hfl Hpe Hw _ _.
    split; [reflexivity|]. split; [by exists ev|].
    simpl. split; [congruence|]. by split.
  - intros calls Hall Hlt.
    destruct (enqueue_turns_below_max calls st Hall Hlt) as (new & Hq & Hn & Hw).
    exists new. repeat (split; [assumption|]). split; [|split; assumption].
    apply (f_equal length) in Hn. unfold produced in Hn.
    by rewrite !length_map in Hn.
Qed.

Lemma enqueue_batch_size_witness :
  (queue (fst (enqueue Demo.env_beacon "hb" (JObj []) Demo.st_nineteen)) = []
   /\ snd (enqueue Demo.env_beacon "hb" (JObj []) Demo.st_nineteen) = Done)
  /\ (snd (enqueue Demo.env0 "hb" (JObj []) Demo.st_busy) = Done
      /\ wire (fst (enqueue Demo.env0 "hb" (JObj []) Demo.st_busy))
         = wire Demo.st_busy)
  /\ exists new,
       queue (run (enqueue_turns Demo.calls3) Demo.st0) = queue Demo.st0 ++ new
       /\ length new = 3%nat
       /\ produced new = map snd Demo.calls3
       /\ wire (run (enqueue_turns Demo.calls3) Demo.st0) = wire Demo.st0.
Proof.
  destruct (enqueue_batch_size Demo.st_nineteen) as (Hfull & _ & _).
  destruct (enqueue_batch_size Demo.st_busy) as (_ & Hbusy & _).
  destruct (enqueue_batch_size Demo.st0) as (_ & _ & Hbelow).
  split; [|split].
  - destruct (Hfull Demo.env_beacon "hb" (JObj [])) as (Hq & Hsent & _);
      [vm_compute; reflexivity | reflexivity | vm_compute; reflexivity
      | vm_compute; discriminate |].
    split; [exact Hq|].
    destruct Hsent as [Hd _]; [reflexivity | left; reflexivity | exact Hd].
  - destruct (Hbusy Demo.env0 "hb" (JObj [])) as (Hd & _ & _ & _ & Hw);
      [vm_compute; reflexivity | reflexivity | vm_compute; reflexivity |].
    split; [exact Hd|exact Hw].
  - apply (Hbelow Demo.calls3).
    + repeat (apply Forall_cons; split; [split; reflexivity|]).
      apply Forall_nil_2.
    + reflexivity.
Defined.

(** ** The fallback request *)

(** A rejected request: both handlers run; the batch returns to the front
    of the queue, in its order, ahead of what was enqueued meanwhile, and the
    flag is cleared. *)
Lemma settle_network_error_requeues (st : State) (batch : list EventRecord)
    (older : list (list EventRecord)) :
  pending st = older ++ [batch] ->
  queue (settle (length older) NetworkError st) = batch ++ queue st
  /\ flushing (settle (length older) NetworkError st) = false
  /\ pending (settle (length older) NetworkError st) = older
  /\ wire (settle (length older) NetworkError st) = wire st.
Proof. intros Hp. rewrite (settle_last_error st batch older Hp). by simpl. Qed.

(** After the requeue, a flush that the beacon accepts sends the failed batch
    and the newer records once, as one batch in queue order. *)
Lemma retry_after_network_error env (st : State) (batch : list EventRecord)
    (older : list (list EventRecord)) :
  pending st = older ++ [batch] -> batch <> [] ->
  readyToTrack env st = true -> has_Blob env = true -> beacon_ok env = true ->
  let st' := fst (flush env (settle (length older) NetworkError st)) in
  queue st' = [] /\ flushing st' = false
  /\ wire st' = wire st ++ [Beaconed (batch ++ queue st)].
Proof.
  intros Hp Hb Hr HB Hk.
  rewrite (settle_last_error st batch older Hp).
  rewrite flush_beacon; [by simpl| |exact HB|exact Hk].
  apply flush_skips_false; simpl; [|reflexivity|by destruct batch].
  rewrite <- Hr. by apply readyToTrack_gate.
Qed.

(** A resolved request, whatever its status: only the [finally] handler
    runs; the queue is left as it is and the batch is in no queue any more. *)
Lemma settle_response_keeps_queue (status : Z) (st : State)
    (batch : list EventRecord) (older : list (list EventRecord)) :
  pending st = older ++ [batch] ->
  queue (settle (length older) (Response status) st) = queue st
  /\ flushing (settle (length older) (Response status) st) = false
  /\ pending (settle (length older) (Response status) st) = older.
Proof.
  intros Hp. rewrite (settle_last_response status st batch older Hp).
  by simpl.
Qed.

(** C1 on the code, at a fallback POST answered with HTTP 500.  Three
    records are queued and flushed through [fetch]; the response arrives
    with status 500.  The flag is cleared, but the three records are neither
    back in the queue nor pending: a later flush has nothing to send and the
    only request that ever carried them is the failed one. *)
Theorem fallback_http_500_loses_batch :
  let st1 := fst (flush Demo.env0 Demo.st_three) in
  let st2 := settle 0 (Response 500) st1 in
  let st3 := fst (flush Demo.env_beacon st2) in
  produced (queue Demo.st_three)
  = [("pageview", JObj []); ("scroll", JObj [("depth", JNum 40)]);
     ("click", JObj [("href", JStr "/b")])]
  /\ pending st1 = [queue Demo.st_three]
  /\ flushing st2 = false
  /\ queue st2 = []
  /\ pending st2 = []
  /\ st3 = st2
  /\ wire st3 = [Posted (queue Demo.st_three)].
Proof. vm_compute. repeat split. Qed.

(** The same page when the request is rejected instead: the three records
    are queued again in their order and the next flush delivers them. *)
Example fallback_network_error_retries :
  let st1 := fst (flush Demo.env0 Demo.st_three) in
  let st2 := settle 0 NetworkError st1 in
  let st3 := fst (flush Demo.env_beacon st2) in
  queue st2 = queue Demo.st_three
  /\ flushing st2 = false
  /\ queue st3 = []
  /\ wire st3 = [Posted (queue Demo.st_three); Beaconed (queue Demo.st_three)].
Proof. vm_compute. repeat split. Qed.

(** ** Payloads at the public entry points *)

Lemma coerce_payload_non_object (payload : JsValue) :
  (forall items, payload <> JArr items) ->
  (forall fields, payload <> JObj fields) ->
  coerce_payload payload = JObj [].
Proof.
  intros Ha Ho. unfold coerce_payload.
  destruct payload as [| |b|n|s|items|fields]; simpl;
    try reflexivity; try (by rewrite andb_false_r).
  - by destruct (Ha items).
  - by destruct (Ho fields).
Qed.

(** [W.CC_EMBED.track] queues the coerced payload. *)
Lemma CC_EMBED_track_coerces env type payload st :
  readyToTrack env st = true -> has_Intl env = true ->
  Z.of_nat (length (queue st)) + 1 < maxBatch (cfg st) ->
  produced (queue (fst (CC_EMBED_track env type payload st)))
  = produced (queue st)
    ++ [(if nonempty type then type else "custom", coerce_payload payload)].
Proof.
  intros Hr HI Hlt. unfold CC_EMBED_track.
  destruct (enqueue_below_max env (if nonempty type then type else "custom")
              (coerce_payload payload) st Hr HI Hlt)
    as (ev & st1 & Ht & Hp & _ & He).
  rewrite He. simpl. unfold produced. rewrite map_app. simpl.
  by rewrite Ht, Hp.
Qed.

(** [W.CC.embed.track] is [enqueue]: it queues the payload it was given. *)
Lemma API_track_passes_payload env type payload st :
  readyToTrack env st = true -> has_Intl env = true ->
  Z.of_nat (length (queue st)) + 1 < maxBatch (cfg st) ->
  produced (queue (fst (API_track env type payload st)))
  = produced (queue st) ++ [(type, payload)].
Proof.
  intros Hr HI Hlt. unfold API_track.
  destruct (enqueue_below_max env type payload st Hr HI Hlt)
    as (ev & st1 & Ht & Hp & _ & He).
  rewrite He. simpl. unfold produced. rewrite map_app. simpl.
  by rewrite Ht, Hp.
Qed.

(** C9 on the code, at [W.CC.embed.track('custom', 'oops')].  The payload is
    a string, not an object; the record queued by [API.track] carries the
    string itself, while the same call through [W.CC_EMBED.track] queues
    the empty object. *)
Theorem API_track_keeps_string_payload :
  produced (queue (fst (API_track Demo.env0 "custom" (JStr "oops") Demo.st0)))
  = [("custom", JStr "oops")]
  /\ produced (queue (fst (CC_EMBED_track Demo.env0 "custom" (JStr "oops")
                             Demo.st0)))
     = [("custom", JObj [])].
Proof. vm_compute. split; reflexivity. Qed.

(** ** The example pages are states the script reaches *)

Example load_fresh_page :
  load Demo.cfg0 [] Demo.env0 ∅ = Some Demo.st0.
Proof. reflexivity. Qed.

Example load_under_dnt :
  load Demo.cfg0 [] Demo.env_dnt ∅ = Some Demo.st_dnt.
Proof. reflexivity. Qed.

Example load_consent_site :
  load Demo.cfg_consent [] Demo.env0 ∅ = Some Demo.st_consent.
Proof. reflexivity. Qed.

(** Consent required and not granted: [enqueue] queues nothing; after
    [consentGranted] the same call queues one record. *)
Example consent_scenario :
  queue (fst (enqueue Demo.env0 "pageview" (JObj []) Demo.st_consent)) = []
  /\ produced (queue (fst (enqueue Demo.env0 "pageview" (JObj [])
                             (API_consentGranted Demo.env0 Demo.st_consent))))
     = [("pageview", JObj [])].
Proof. vm_compute. split; reflexivity. Qed.

(** * Further properties of the script *)

(** ** [clamp] *)

(** X25.  [clamp] with integer bounds [min <= max].  A number that is not
    [NaN] is sent into the interval: an integer of the interval is returned
    as it is, a smaller one and minus infinity give [min], a larger one and
    plus infinity give [max].  [NaN] is returned as [NaN]: the bounds do not
    hold for it, so the scroll depth that [trackScroll] clamps to 0..100 is
    within these bounds exactly when the rounded depth is a number.  The
    function is idempotent. *)
Theorem clamp_interval (n : JsNumber) (min max : Z) :
  min <= max ->
  (n <> NNaN <->
   exists z, clamp n (NInt min) (NInt max) = NInt z /\ min <= z <= max)
  /\ (n = NNaN -> clamp n (NInt min) (NInt max) = NNaN)
  /\ (forall z, n = NInt z -> min <= z <= max ->
      clamp n (NInt min) (NInt max) = NInt z)
  /\ (n = NNegInf \/ (exists z, n = NInt z /\ z < min) ->
      clamp n (NInt min) (NInt max) = NInt min)
  /\ (n = NPosInf \/ (exists z, n = NInt z /\ max < z) ->
      clamp n (NInt min) (NInt max) = NInt max)
  /\ clamp (clamp n (NInt min) (NInt max)) (NInt min) (NInt max)
     = clamp n (NInt min) (NInt max).
Proof.
  intros Hle. unfold clamp.
  split; [|split; [|split; [|split; [|split]]]].
  - split.
    + intros Hn. destruct n as [| | |z]; [done| | |]; cbn [Math_min Math_max].
      * exists min. split; [f_equal|]; lia.
      * exists max. split; [f_equal|]; lia.
      * exists (Z.max min (Z.min max z)). split; [reflexivity|lia].
    + intros (z & Hz & _) ->. discriminate Hz.
  - by intros ->.
  - intros z -> Hz. cbn [Math_min Math_max]. f_equal. lia.
  - intros [->|(z & -> & Hz)]; cbn [Math_min Math_max]; f_equal; lia.
  - intros [->|(z & -> & Hz)]; cbn [Math_min Math_max]; f_equal; lia.
  - destruct n as [| | |z]; cbn [Math_min Math_max]; f_equal; lia.
Qed.

Lemma clamp_interval_witness :
  clamp (NInt 137) (NInt 0) (NInt 100) = NInt 100
  /\ clamp NPosInf (NInt 0) (NInt 100) = NInt 100
  /\ clamp NNaN (NInt 0) (NInt 100) = NNaN.
Proof.
  destruct (clamp_interval (NInt 137) 0 100) as (_ & _ & _ & _ & H1 & _);
    [lia|].
  destruct (clamp_interval NPosInf 0 100) as (_ & _ & _ & _ & H2 & _); [lia|].
  destruct (clamp_interval NNaN 0 100) as (_ & H3 & _); [lia|].
  split; [apply H1; right; exists 137; split; [reflexivity|lia]|].
  split; [apply H2; by left|by apply H3].
Defined.

(** ** [escapeHTML] *)

Lemma occurs_app c (a b : string) :
  occurs c (a ++ b)%string = occurs c a || occurs c b.
Proof.
  induction a as [|x a IH]; simpl; [reflexivity|].
  rewrite IH. apply orb_assoc.
Qed.

Lemma escape_char_plain c :
  html_special c = false -> escape_char c = String c EmptyString.
Proof.
  unfold html_special, escape_char. intros H.
  repeat (apply orb_false_iff in H as [H ?]).
  by repeat match goal with E : Ascii.eqb _ _ = false |- _ => rewrite E; clear E end.
Qed.

Lemma escape_char_safe c d :
  html_special d = true -> Ascii.eqb d "&" = false ->
  occurs d (escape_char c) = false.
Proof.
  intros Hd Hamp. unfold escape_char.
  assert (Hcases : d = "<"%char \/ d = ">"%char \/ d = dquote \/ d = "'"%char).
  { unfold html_special in Hd. rewrite Hamp in Hd. simpl in Hd.
    repeat (apply orb_true_iff in Hd as [Hd|Hd]);
      apply Ascii.eqb_eq in Hd; auto. }
  destruct (Ascii.eqb_spec c "&"); [by destruct Hcases as [->|[->|[->| ->]]]|].
  destruct (Ascii.eqb_spec c "<"); [by destruct Hcases as [->|[->|[->| ->]]]|].
  destruct (Ascii.eqb_spec c ">"); [by destruct Hcases as [->|[->|[->| ->]]]|].
  destruct (Ascii.eqb_spec c dquote); [by destruct Hcases as [->|[->|[->| ->]]]|].
  destruct (Ascii.eqb_spec c "'"); [by destruct Hcases as [->|[->|[->| ->]]]|].
  simpl. rewrite orb_false_r. apply Ascii.eqb_neq.
  destruct Hcases as [->|[->|[->| ->]]]; assumption.
Qed.

(** X23.  Whatever the input, the output of [escapeHTML] contains no less-than
    sign, no greater-than sign, no double quote and no apostrophe; an input
    without any of the five special characters is returned as it is. *)
Theorem escapeHTML_output_safe (s : string) :
  occurs "<" (escapeHTML s) = false
  /\ occurs ">" (escapeHTML s) = false
  /\ occurs dquote (escapeHTML s) = false
  /\ occurs "'" (escapeHTML s) = false
  /\ ((forall c, html_special c = true -> occurs c s = false) ->
      escapeHTML s = s).
Proof.
  assert (Hsafe : forall d, html_special d = true -> Ascii.eqb d "&" = false ->
                            occurs d (escapeHTML s) = false).
  { intros d Hd Hamp. induction s as [|c s IH]; [reflexivity|].
    simpl. rewrite occurs_app, IH, orb_false_r.
    by apply escape_char_safe. }
  repeat (split; [by apply Hsafe|]).
  clear Hsafe. induction s as [|c s IH]; [reflexivity|].
  intros Hclean. simpl.
  rewrite escape_char_plain.
  - simpl. f_equal. apply IH. intros d Hd.
    specialize (Hclean d Hd). simpl in Hclean.
    apply orb_false_iff in Hclean as [_ Hclean]. exact Hclean.
  - destruct (html_special c) eqn:Hc; [|reflexivity].
    specialize (Hclean c Hc). simpl in Hclean.
    by rewrite Ascii.eqb_refl in Hclean.
Qed.

Lemma escapeHTML_output_safe_witness :
  escapeHTML "plain text 42" = "plain text 42".
Proof.
  destruct (escapeHTML_output_safe "plain text 42") as (_ & _ & _ & _ & H).
  apply H. intros c Hc. unfold html_special in Hc.
  repeat (apply orb_true_iff in Hc as [Hc|Hc]);
    apply Ascii.eqb_eq in Hc; subst c; reflexivity.
Defined.

Ltac split_escape_char c :=
  unfold escape_char;
  destruct (Ascii.eqb_spec c "&");
    [|destruct (Ascii.eqb_spec c "<");
      [|destruct (Ascii.eqb_spec c ">");
        [|destruct (Ascii.eqb_spec c dquote);
          [|destruct (Ascii.eqb_spec c "'")]]]].

(** X24.  [escapeHTML] loses nothing: two different texts never have the same
    escaped form. *)
Theorem escapeHTML_injective (s1 s2 : string) :
  escapeHTML s1 = escapeHTML s2 -> s1 = s2.
Proof.
  revert s2. induction s1 as [|c1 s1 IH]; intros [|c2 s2]; simpl.
  - reflexivity.
  - split_escape_char c2; discriminate.
  - split_escape_char c1; discriminate.
  - split_escape_char c1; split_escape_char c2; simpl; intros H;
      try discriminate H;
      try (injection H as H; subst; f_equal; by apply IH);
      try (injection H as H1 H2; congruence).
Qed.

Lemma escapeHTML_injective_witness : "a<b" = "a<b".
Proof. apply (escapeHTML_injective "a<b" "a<b"). reflexivity. Defined.

(** ** [uuid] *)

(** The characters of the template that are not placeholders stay where
    they are. *)
Lemma uuid_replace_keeps (tmpl : string) (rnd : nat -> Z) (i n : nat) (c : ascii) :
  String.get n tmpl = Some c -> c <> "x"%char -> c <> "y"%char ->
  String.get n (fst (uuid_replace tmpl rnd i)) = Some c.
Proof.
  revert i n. induction tmpl as [|a tmpl IH]; intros i n Hget Hx Hy;
    [discriminate|].
  simpl.
  destruct (Ascii.eqb_spec a "x") as [->|Hax];
    [|destruct (Ascii.eqb_spec a "y") as [->|Hay]].
  - destruct n as [|n]; [simpl in Hget; congruence|]. simpl in Hget.
    specialize (IH (S i) n Hget Hx Hy).
    destruct (uuid_replace tmpl rnd (S i)) as [out j].
    destruct (toString16_digit (rnd i)) as [d ->].
    by rewrite digit_append.
  - destruct n as [|n]; [simpl in Hget; congruence|]. simpl in Hget.
    specialize (IH (S i) n Hget Hx Hy).
    destruct (uuid_replace tmpl rnd (S i)) as [out j].
    destruct (toString16_digit (Z.lor (Z.land (rnd i) 3) 8)) as [d ->].
    by rewrite digit_append.
  - destruct n as [|n]; simpl in Hget.
    + destruct (uuid_replace tmpl rnd i) as [out j]. exact Hget.
    + specialize (IH i n Hget Hx Hy).
      by destruct (uuid_replace tmpl rnd i) as [out j].
Qed.

(** A [y] of the template becomes the digit of [r&0x3|0x8] for one of the
    random values. *)
Lemma uuid_replace_variant (tmpl : string) (rnd : nat -> Z) (i n : nat) :
  String.get n tmpl = Some "y"%char ->
  exists r, String.get n (fst (uuid_replace tmpl rnd i))
            = String.get 0 (toString16 (Z.lor (Z.land r 3) 8)).
Proof.
  revert i n. induction tmpl as [|a tmpl IH]; intros i n Hget;
    [discriminate|].
  simpl.
  destruct (Ascii.eqb_spec a "x") as [->|Hax];
    [|destruct (Ascii.eqb_spec a "y") as [->|Hay]].
  - destruct n as [|n]; [discriminate|]. simpl in Hget.
    destruct (IH (S i) n Hget) as [r Hr]. exists r.
    destruct (uuid_replace tmpl rnd (S i)) as [out j].
    destruct (toString16_digit (rnd i)) as [d ->].
    by rewrite digit_append.
  - destruct n as [|n].
    + exists (rnd i). destruct (uuid_replace tmpl rnd (S i)) as [out j].
      destruct (toString16_digit (Z.lor (Z.land (rnd i) 3) 8)) as [d ->].
      by rewrite digit_append.
    + simpl in Hget. destruct (IH (S i) n Hget) as [r Hr]. exists r.
      destruct (uuid_replace tmpl rnd (S i)) as [out j].
      destruct (toString16_digit (Z.lor (Z.land (rnd i) 3) 8)) as [d ->].
      by rewrite digit_append.
  - destruct n as [|n]; simpl in Hget; [congruence|].
    destruct (IH i n Hget) as [r Hr]. exists r.
    by destruct (uuid_replace tmpl rnd i) as [out j].
Qed.

Lemma variant_digit (r : Z) :
  exists d, toString16 (Z.lor (Z.land r 3) 8) = String d EmptyString
            /\ d ∈ ["8"%char; "9"%char; "a"%char; "b"%char].
Proof.
  change 3 with (Z.ones 2). rewrite Z.land_ones by lia.
  pose proof (Z.mod_pos_bound r (2 ^ 2) ltac:(lia)) as Hm.
  assert (Hc : r mod 2 ^ 2 = 0 \/ r mod 2 ^ 2 = 1 \/ r mod 2 ^ 2 = 2
               \/ r mod 2 ^ 2 = 3) by lia.
  destruct Hc as [-> | [-> | [-> | ->]]]; simpl; eexists;
    (split; [reflexivity|]); rewrite !elem_of_cons; auto.
Qed.

Lemma uuid_nonempty env st : fst (uuid env st) <> "".
Proof.
  intros H. apply (f_equal String.length) in H. unfold uuid in H.
  pose proof (uuid_replace_length "xxxxxxxx-xxxx-4xxx-yxxx-xxxxxxxxxxxx"
                (entropy env) (drawn st)) as Hl.
  destruct (uuid_replace _ _ _) as [u j]. simpl in *. congruence.
Qed.

(** X1.  Every generated id has the RFC 4122 version-4 shape, whatever the
    random values are: 36 characters, hyphens at positions 8, 13, 18 and 23,
    the digit 4 at position 14 and one of 8, 9, a, b at position 19; one call
    consumes exactly 31 random values. *)
Theorem uuid_shape (env : Env) (st : State) :
  String.length (fst (uuid env st)) = 36%nat
  /\ String.get 8 (fst (uuid env st)) = Some "-"%char
  /\ String.get 13 (fst (uuid env st)) = Some "-"%char
  /\ String.get 18 (fst (uuid env st)) = Some "-"%char
  /\ String.get 23 (fst (uuid env st)) = Some "-"%char
  /\ String.get 14 (fst (uuid env st)) = Some "4"%char
  /\ (exists c, String.get 19 (fst (uuid env st)) = Some c
                /\ c ∈ ["8"%char; "9"%char; "a"%char; "b"%char])
  /\ drawn (snd (uuid env st)) = (drawn st + 31)%nat.
Proof.
  pose proof (uuid_replace_length "xxxxxxxx-xxxx-4xxx-yxxx-xxxxxxxxxxxx"
                (entropy env) (drawn st)) as Hl.
  pose proof (fun n c => uuid_replace_keeps "xxxxxxxx-xxxx-4xxx-yxxx-xxxxxxxxxxxx"
                (entropy env) (drawn st) n c) as Hk.
  destruct (uuid_replace_variant "xxxxxxxx-xxxx-4xxx-yxxx-xxxxxxxxxxxx"
              (entropy env) (drawn st) 19 eq_refl) as [r Hv].
  pose proof (uuid_drawn env st) as Hd.
  unfold uuid in *.
  destruct (uuid_replace _ _ _) as [u j]. simpl in *.
  split; [exact Hl|].
  do 5 (split; [by apply Hk|]).
  split; [|exact Hd].
  destruct (variant_digit r) as (d & Hdig & Hd').
  rewrite Hdig in Hv. simpl in Hv. exists d. by split.
Qed.

(** ** Visitor and session identity *)

Arguments uuid : simpl never.

Lemma ls_get_ok env st k d :
  ls_ok env = true ->
  ls_get env st k d = match storage st !! k with Some v => Some v | None => d end.
Proof. intros H. unfold ls_get. by rewrite H. Qed.

Lemma ls_get_down env st k d : ls_ok env = false -> ls_get env st k d = d.
Proof. intros H. unfold ls_get. by rewrite H. Qed.

Lemma ls_set_down env k v st : ls_ok env = false -> ls_set env k v st = st.
Proof. intros H. unfold ls_set. by rewrite H. Qed.

Lemma uuid_pair env st : uuid env st = (fst (uuid env st), snd (uuid env st)).
Proof. by destruct (uuid env st). Qed.

(** [getVisitorId] when nothing usable is stored. *)
Lemma getVisitorId_fresh env st :
  (forall v, ls_get env st VID_KEY None = Some v -> stored_truthy v = false) ->
  getVisitorId env st
  = (SStr (fst (uuid env st)),
     ls_set env VID_KEY (SStr (fst (uuid env st))) (snd (uuid env st))).
Proof.
  intros H. unfold getVisitorId. rewrite (uuid_pair env st). simpl.
  destruct (ls_get env st VID_KEY None) as [v|]; [|reflexivity].
  by rewrite (H v eq_refl).
Qed.

(** X2.  With a working storage, the first call of [getVisitorId] settles the
    visitor id: the id it returns is stored, and any later call returns that
    id again, writes nothing and draws no random value. *)
Theorem getVisitorId_stable (env env' : Env) (st : State) :
  ls_ok env = true -> ls_ok env' = true ->
  storage (snd (getVisitorId env st)) !! VID_KEY = Some (fst (getVisitorId env st))
  /\ getVisitorId env' (snd (getVisitorId env st)) = getVisitorId env st.
Proof.
  intros Hls Hls'.
  destruct (storage st !! VID_KEY) as [v|] eqn:Hv;
    [destruct (stored_truthy v) eqn:Ht|].
  - assert (Hr : getVisitorId env st = (v, st)).
    { unfold getVisitorId. rewrite ls_get_ok, Hv, Ht by assumption.
      reflexivity. }
    rewrite Hr. simpl. split; [exact Hv|].
    unfold getVisitorId. rewrite ls_get_ok, Hv, Ht by assumption. reflexivity.
  - rewrite getVisitorId_fresh.
    2:{ intros w. rewrite ls_get_ok, Hv by assumption. congruence. }
    cbn [fst snd]. rewrite storage_ls_set by assumption.
    split; [apply lookup_insert_eq|].
    unfold getVisitorId at 1. rewrite ls_get_ok, storage_ls_set by assumption.
    rewrite lookup_insert_eq. cbv beta iota.
    assert (Hne : stored_truthy (SStr (fst (uuid env st))) = true)
      by apply nonempty_true, uuid_nonempty.
    by rewrite Hne.
  - rewrite getVisitorId_fresh.
    2:{ intros w. rewrite ls_get_ok, Hv by assumption. discriminate. }
    cbn [fst snd]. rewrite storage_ls_set by assumption.
    split; [apply lookup_insert_eq|].
    unfold getVisitorId at 1. rewrite ls_get_ok, storage_ls_set by assumption.
    rewrite lookup_insert_eq. cbv beta iota.
    assert (Hne : stored_truthy (SStr (fst (uuid env st))) = true)
      by apply nonempty_true, uuid_nonempty.
    by rewrite Hne.
Qed.

Lemma getVisitorId_stable_witness :
  getVisitorId (Demo.at_time 2000 Demo.env0)
    (snd (getVisitorId Demo.env0 Demo.st0))
  = getVisitorId Demo.env0 Demo.st0.
Proof.
  apply (getVisitorId_stable Demo.env0 (Demo.at_time 2000 Demo.env0) Demo.st0);
    reflexivity.
Defined.

(** X3.  When [localStorage] throws, nothing is read and nothing is kept:
    [getVisitorId] and [getSessionId] each return a newly generated id on
    every call, consume 31 random values for it, and leave the stored
    entries as they were. *)
Theorem identity_without_storage (env : Env) (st : State) :
  ls_ok env = false ->
  getVisitorId env st = (SStr (fst (uuid env st)), snd (uuid env st))
  /\ getSessionId env st = (fst (uuid env st), snd (uuid env st))
  /\ storage (snd (uuid env st)) = storage st
  /\ drawn (snd (uuid env st)) = (drawn st + 31)%nat.
Proof.
  intros Hls. split; [|split; [|split]].
  - rewrite getVisitorId_fresh.
    + by rewrite ls_set_down.
    + intros v. by rewrite ls_get_down.
  - unfold getSessionId, live_session. rewrite ls_get_down by assumption.
    rewrite (uuid_pair env st). cbn [fst snd s_id].
    by rewrite ls_set_down.
  - by rewrite uuid_state.
  - apply uuid_drawn.
Qed.

Lemma identity_without_storage_witness :
  fst (getSessionId Pages.env_nols Demo.st_session)
  = "01234567-89ab-4cde-b012-3456789abcde"
  /\ storage (snd (getSessionId Pages.env_nols Demo.st_session))
     = storage Demo.st_session.
Proof.
  destruct (identity_without_storage Pages.env_nols Demo.st_session eq_refl)
    as (_ & Hs & Hst & _).
  rewrite Hs. split; [reflexivity|exact Hst].
Defined.

(** What a call of [getSessionId] leaves in a working storage: the session
    whose id it returned, touched at the time of the call. *)
Lemma getSessionId_stored env st :
  ls_ok env = true ->
  exists s,
    fst (getSessionId env st) = s_id s
    /\ storage (snd (getSessionId env st)) !! SID_KEY = Some (SSession s)
    /\ s_id s <> "" /\ s_last s = now env
    /\ cfg (snd (getSessionId env st)) = cfg st.
Proof.
  intros Hls. unfold getSessionId.
  destruct (live_session _ _ _) as [s0|] eqn:Hl.
  - eexists {| s_id := s_id s0 |}. cbn [fst snd s_id s_last].
    rewrite storage_ls_set, lookup_insert_eq by assumption.
    repeat split.
    + unfold live_session in Hl.
      destruct (ls_get env st SID_KEY None) as [[| |s|]|]; try discriminate.
      destruct (nonempty (s_id s)) eqn:Hn; [|discriminate]. simpl in Hl.
      destruct (Z.ltb _ _); [discriminate|]. injection Hl as <-.
      by apply nonempty_true.
    + unfold ls_set. by rewrite Hls.
  - rewrite (uuid_pair env st).
    eexists {| s_id := fst (uuid env st) |}. cbn [fst snd s_id s_last].
    rewrite storage_ls_set, lookup_insert_eq by assumption.
    repeat split.
    + apply uuid_nonempty.
    + unfold ls_set. rewrite Hls. by rewrite uuid_state.
Qed.



(** X5.  [touchSession] creates nothing: without a stored session it leaves the
    state alone.  On a stored session it writes the same id and start time
    with [last = now] and never rotates the id, not even when the session
    has expired: an expired session that is touched is alive again, and the
    next [getSessionId] within the timeout returns its old id, where
    [getSessionId] alone would have generated a new one. *)
Theorem touchSession_keeps_id (env env' : Env) (st : State) (s : Session) :
  (storage st !! SID_KEY = None -> touchSession env st = st)
  /\ (ls_ok env = true -> ls_ok env' = true ->
      storage st !! SID_KEY = Some (SSession s) -> s_id s <> "" ->
      storage (touchSession env st) !! SID_KEY
      = Some (SSession {| s_id := s_id s; s_started := s_started s;
                          s_last := now env |})
      /\ (now env' - now env <= sessionTimeoutMs (cfg st) ->
          fst (getSessionId env' (touchSession env st)) = s_id s)
      /\ (sessionTimeoutMs (cfg st) < now env - s_last s ->
          fst (getSessionId env st) = fst (uuid env st))).
Proof.
  split.
  - intros Hn. unfold touchSession, ls_get. rewrite Hn.
    by destruct (ls_ok env).
  - intros Hls Hls' Hs Hne.
    assert (Ht : touchSession env st
                 = ls_set env SID_KEY
                     (SSession {| s_id := s_id s; s_started := s_started s;
                                  s_last := now env |}) st).
    { unfold touchSession. by rewrite ls_get_ok, Hs by assumption. }
    rewrite Ht. rewrite storage_ls_set by assumption.
    split; [apply lookup_insert_eq|]. split.
    + intros Hle.
      rewrite (getSessionId_keeps env' _
                 {| s_id := s_id s; s_started := s_started s;
                    s_last := now env |}); try assumption.
      * reflexivity.
      * rewrite storage_ls_set by assumption. apply lookup_insert_eq.
      * cbn [s_last]. unfold ls_set. by rewrite Hls.
    + intros Hexp. by rewrite (getSessionId_rotates env st s).
Qed.

Lemma touchSession_keeps_id_witness :
  fst (getSessionId Pages.env_late (touchSession Pages.env_late Demo.st_session))
  = s_id Demo.session_A
  /\ fst (getSessionId Pages.env_late Demo.st_session)
     = "01234567-89ab-4cde-b012-3456789abcde".
Proof.
  destruct (touchSession_keeps_id Pages.env_late Pages.env_late
              Demo.st_session Demo.session_A) as [_ H].
  destruct H as (_ & H1 & H2);
    [reflexivity|reflexivity|reflexivity|discriminate|].
  split.
  - apply H1. vm_compute. discriminate.
  - rewrite H2; reflexivity.
Defined.

(** ** Records and the identity they carry *)

Lemma getVisitorId_other_keys env st k :
  k <> VID_KEY ->
  storage (snd (getVisitorId env st)) !! k = storage st !! k.
Proof.
  intros Hk. unfold getVisitorId. rewrite (uuid_pair env st).
  assert (Hf : storage (ls_set env VID_KEY (SStr (fst (uuid env st)))
                          (snd (uuid env st))) !! k = storage st !! k).
  { unfold ls_set. destruct (ls_ok env); cbn [storage set_storage].
    - rewrite lookup_insert_ne by congruence. by rewrite uuid_state.
    - by rewrite uuid_state. }
  destruct (ls_get env st VID_KEY None) as [v|];
    [destruct (stored_truthy v)|]; cbn [fst snd]; auto.
Qed.

Lemma getVisitorId_stored env st :
  ls_ok env = true ->
  storage (snd (getVisitorId env st)) !! VID_KEY = Some (fst (getVisitorId env st)).
Proof.
  intros Hls.
  destruct (storage st !! VID_KEY) as [v|] eqn:Hv;
    [destruct (stored_truthy v) eqn:Ht|].
  - unfold getVisitorId. by rewrite ls_get_ok, Hv, Ht by assumption.
  - rewrite getVisitorId_fresh.
    + cbn [fst snd]. rewrite storage_ls_set by assumption.
      apply lookup_insert_eq.
    + intros w. rewrite ls_get_ok, Hv by assumption. congruence.
  - rewrite getVisitorId_fresh.
    + cbn [fst snd]. rewrite storage_ls_set by assumption.
      apply lookup_insert_eq.
    + intros w. rewrite ls_get_ok, Hv by assumption. discriminate.
Qed.

(** [baseEvent] field by field, on a platform with [Intl]. *)
Lemma baseEvent_fields env type payload st :
  has_Intl env = true ->
  exists ev,
    baseEvent env type payload st
    = (snd (getVisitorId env (snd (getSessionId env st))), inr ev)
    /\ ev_t ev = type /\ ev_payload ev = payload /\ ev_ts ev = now env
    /\ ev_sid ev = fst (getSessionId env st)
    /\ ev_vid ev = fst (getVisitorId env (snd (getSessionId env st)))
    /\ ev_site ev = siteId (cfg st)
    /\ ev_trail ev = refTrail st /\ ev_utm ev = utm st.
Proof.
  intros HI. unfold baseEvent.
  pose proof (view_getSessionId env st) as Hs.
  destruct (getSessionId env st) as [sid st1]. cbn [fst snd] in *.
  pose proof (view_getVisitorId env st1) as Hv.
  destruct (getVisitorId env st1) as [vid st2]. cbn [fst snd] in *.
  rewrite HI. eexists. split; [reflexivity|]. cbn.
  unfold script_view in Hs, Hv.
  injection Hs as Hc1 _ Hu1 Hr1 _ _ _ _ _ _.
  injection Hv as Hc2 _ Hu2 Hr2 _ _ _ _ _ _.
  repeat split; congruence.
Qed.

(** [baseEvent] on a platform without [Intl]: the identity reads have
    happened, then the exception. *)
Lemma baseEvent_without_Intl env type payload st :
  has_Intl env = false ->
  baseEvent env type payload st
  = (snd (getVisitorId env (snd (getSessionId env st))),
     inl (ReferenceError "Intl")).
Proof.
  intros HI. unfold baseEvent.
  destruct (getSessionId env st) as [sid st1]. cbn [fst snd].
  destruct (getVisitorId env st1) as [vid st2]. by rewrite HI.
Qed.

(** X6.  The record [baseEvent] builds agrees with what it leaves in storage:
    its [sid] is the id of the stored session and its [vid] is the stored
    visitor id.  (The record's [ts] and the session's [last] come from two
    readings of the clock and are not compared here.) *)
Theorem baseEvent_matches_storage (env : Env) (type : string)
    (payload : JsValue) (st : State) :
  ls_ok env = true -> has_Intl env = true ->
  exists ev s,
    snd (baseEvent env type payload st) = inr ev
    /\ storage (fst (baseEvent env type payload st)) !! SID_KEY
       = Some (SSession s)
    /\ s_id s = ev_sid ev
    /\ storage (fst (baseEvent env type payload st)) !! VID_KEY
       = Some (ev_vid ev).
Proof.
  intros Hls HI.
  destruct (baseEvent_fields env type payload st HI)
    as (ev & Hb & _ & _ & _ & Hsid & Hvid & _).
  destruct (getSessionId_stored env st Hls) as (s & Hid & Hs & _).
  exists ev, s. rewrite Hb. cbn [fst snd].
  split; [reflexivity|]. split.
  - rewrite getVisitorId_other_keys by discriminate. exact Hs.
  - split; [congruence|].
    rewrite Hvid. by apply getVisitorId_stored.
Qed.

Lemma baseEvent_matches_storage_witness :
  exists ev s,
    snd (baseEvent Demo.env0 "pageview" (JObj []) Demo.st0) = inr ev
    /\ storage (fst (baseEvent Demo.env0 "pageview" (JObj []) Demo.st0))
         !! SID_KEY = Some (SSession s)
    /\ s_id s = ev_sid ev
    /\ storage (fst (baseEvent Demo.env0 "pageview" (JObj []) Demo.st0))
         !! VID_KEY = Some (ev_vid ev).
Proof.
  apply (baseEvent_matches_storage Demo.env0 "pageview" (JObj []) Demo.st0);
    reflexivity.
Defined.

(** X7.  Where [Intl] does not exist, an allowed [enqueue] ends with a
    [ReferenceError]: nothing is queued or sent, yet the session has already
    been read and written back with [last = now]. *)
Theorem enqueue_without_Intl (env : Env) (type : string) (payload : JsValue)
    (st : State) :
  readyToTrack env st = true -> has_Intl env = false ->
  snd (enqueue env type payload st) = Thrown (ReferenceError "Intl")
  /\ queue (fst (enqueue env type payload st)) = queue st
  /\ wire (fst (enqueue env type payload st)) = wire st
  /\ (ls_ok env = true ->
      exists s,
        storage (fst (enqueue env type payload st)) !! SID_KEY
        = Some (SSession s)
        /\ s_last s = now env).
Proof.
  intros Hr HI. unfold enqueue.
  rewrite Hr, (baseEvent_without_Intl env type payload st HI).
  cbn [negb fst snd].
  pose proof (view_getSessionId env st) as Hs.
  pose proof (view_getVisitorId env (snd (getSessionId env st))) as Hv.
  rewrite Hs in Hv. unfold script_view in Hv.
  injection Hv as _ _ _ _ Hq _ _ Hw _ _.
  repeat (split; [assumption || reflexivity|]).
  intros Hls.
  destruct (getSessionId_stored env st Hls) as (s & _ & Hst & _ & Hl & _).
  exists s. split; [|exact Hl].
  rewrite getVisitorId_other_keys by discriminate. exact Hst.
Qed.

Lemma enqueue_without_Intl_witness :
  snd (enqueue Pages.env_nointl "pageview" (JObj []) Demo.st0)
  = Thrown (ReferenceError "Intl")
  /\ queue (fst (enqueue Pages.env_nointl "pageview" (JObj []) Demo.st0)) = [].
Proof.
  destruct (enqueue_without_Intl Pages.env_nointl "pageview" (JObj [])
              Demo.st0) as (H1 & H2 & _); [reflexivity|reflexivity|].
  split; [exact H1|exact H2].
Defined.

(** X8.  [W.CC_EMBED.track] never throws.  When the gate denies it queues
    nothing but still arms the flush timer; when [enqueue] throws inside it
    (no [Intl]), the exception is swallowed, nothing is queued and no timer
    is armed. *)
Theorem CC_EMBED_track_never_throws (env : Env) (type : string)
    (payload : JsValue) (st : State) :
  snd (CC_EMBED_track env type payload st) = Done
  /\ (readyToTrack env st = false ->
      fst (CC_EMBED_track env type payload st) = scheduleFlush st)
  /\ (readyToTrack env st = true -> has_Intl env = false ->
      timers (fst (CC_EMBED_track env type payload st)) = timers st
      /\ queue (fst (CC_EMBED_track env type payload st)) = queue st).
Proof.
  split; [|split].
  - unfold CC_EMBED_track. by destruct (enqueue _ _ _ _) as [st1 [|e]].
  - intros Hr. unfold CC_EMBED_track. by rewrite enqueue_gate_closed.
  - intros Hr HI. unfold CC_EMBED_track, enqueue.
    rewrite Hr, baseEvent_without_Intl by exact HI. cbn [negb fst snd].
    pose proof (view_getSessionId env st) as Hs.
    pose proof (view_getVisitorId env (snd (getSessionId env st))) as Hv.
    rewrite Hs in Hv. unfold script_view in Hv.
    by injection Hv as _ _ _ _ -> _ _ _ -> _.
Qed.

Lemma CC_EMBED_track_never_throws_witness :
  snd (CC_EMBED_track Pages.env_nointl "" (JNum 3) Demo.st0) = Done
  /\ fst (CC_EMBED_track Demo.env_dnt "x" JNull Demo.st_dnt)
     = scheduleFlush Demo.st_dnt
  /\ timers (fst (CC_EMBED_track Pages.env_nointl "" (JNum 3) Demo.st0)) = 0%nat.
Proof.
  destruct (CC_EMBED_track_never_throws Pages.env_nointl "" (JNum 3) Demo.st0)
    as (H1 & _ & H3).
  destruct (CC_EMBED_track_never_throws Demo.env_dnt "x" JNull Demo.st_dnt)
    as (_ & H2 & _).
  split; [exact H1|]. split; [apply H2; reflexivity|].
  apply H3; reflexivity.
Defined.

Lemma getSessionId_other_keys env st k :
  k <> SID_KEY ->
  storage (snd (getSessionId env st)) !! k = storage st !! k.
Proof.
  intros Hk. unfold getSessionId. rewrite (uuid_pair env st).
  destruct (live_session _ _ _) as [s0|]; cbn [fst snd]; unfold ls_set;
    destruct (ls_ok env); cbn [storage set_storage];
    rewrite ?lookup_insert_ne by congruence; by rewrite ?uuid_state.
Qed.


(** ** Route changes *)



(** ** [currentCtx] *)

(** X10.  [currentCtx] does not look at the privacy gate.  In every state, also
    one in which do-not-track is on or consent is missing, it reads or
    creates the visitor id and the session, writes both to a working
    storage, and returns the ids it stored; the queue and the wire are not
    touched. *)
Theorem currentCtx_persists_identity (env : Env) (st : State) :
  ls_ok env = true ->
  storage (snd (currentCtx env st)) !! VID_KEY
  = Some (ctx_vid (fst (currentCtx env st)))
  /\ (exists s,
        storage (snd (currentCtx env st)) !! SID_KEY = Some (SSession s)
        /\ s_id s = ctx_sid (fst (currentCtx env st))
        /\ s_last s = now env)
  /\ queue (snd (currentCtx env st)) = queue st
  /\ wire (snd (currentCtx env st)) = wire st.
Proof.
  intros Hls. unfold currentCtx.
  pose proof (getVisitorId_stored env st Hls) as Hv.
  pose proof (view_getVisitorId env st) as Hvv.
  destruct (getVisitorId env st) as [vid st1]. cbn [fst snd] in *.
  destruct (getSessionId_stored env st1 Hls) as (s & Hid & Hs & _ & Hl & _).
  pose proof (getSessionId_other_keys env st1 VID_KEY ltac:(discriminate)) as Hk.
  pose proof (view_getSessionId env st1) as Hsv.
  destruct (getSessionId env st1) as [sid st2]. cbn [fst snd ctx_vid ctx_sid] in *.
  split; [congruence|]. split; [by exists s|].
  rewrite Hvv in Hsv. unfold script_view in Hsv.
  by injection Hsv as _ _ _ _ -> _ _ -> _ _.
Qed.

Lemma currentCtx_persists_identity_witness :
  readyToTrack Demo.env_dnt Demo.st_dnt = false
  /\ storage Demo.st_dnt !! VID_KEY = None
  /\ storage (snd (currentCtx Demo.env_dnt Demo.st_dnt)) !! VID_KEY
     = Some (ctx_vid (fst (currentCtx Demo.env_dnt Demo.st_dnt))).
Proof.
  split; [reflexivity|]. split; [reflexivity|].
  apply (currentCtx_persists_identity Demo.env_dnt Demo.st_dnt). reflexivity.
Defined.

(** ** Invariants of the transport *)

Lemma transport_script_view st st' :
  script_view st' = script_view st -> transport_view st' = transport_view st.
Proof.
  unfold script_view, transport_view. intros H.
  by injection H as _ _ _ _ -> -> -> -> _ _.
Qed.

Lemma transport_ls_set env k v st :
  transport_view (ls_set env k v st) = transport_view st.
Proof. unfold ls_set. by destruct (ls_ok env). Qed.

Lemma transport_touchSession env st :
  transport_view (touchSession env st) = transport_view st.
Proof.
  unfold touchSession.
  destruct (ls_get env st SID_KEY None) as [v|]; [|reflexivity].
  destruct (stored_truthy v); [|reflexivity].
  destruct v; apply transport_ls_set.
Qed.

(** The ways [enqueue] can end. *)
Lemma enqueue_cases env type payload st :
  enqueue env type payload st = (st, Done)
  \/ (exists st1 e,
        script_view st1 = script_view st
        /\ enqueue env type payload st = (st1, Thrown e))
  \/ (exists st1 ev,
        script_view st1 = script_view st
        /\ ev_t ev = type /\ ev_payload ev = payload
        /\ (enqueue env type payload st
            = flush env (set_queue (queue st ++ [ev]) st1)
            \/ enqueue env type payload st
               = (set_queue (queue st ++ [ev]) st1, Done))).
Proof.
  unfold enqueue. destruct (readyToTrack env st); [|by left]. cbn [negb].
  pose proof (view_baseEvent env type payload st) as Hv.
  destruct (has_Intl env) eqn:HI.
  - destruct (baseEvent_record env type payload st HI) as (ev & Hev & Ht & Hp).
    destruct (baseEvent env type payload st) as [st1 res].
    cbn [fst snd] in *. subst res. right; right. exists st1, ev.
    repeat (split; [assumption|]).
    assert (Hq : queue st1 = queue st).
    { unfold script_view in Hv. by injection Hv as _ _ _ _ -> _ _ _ _ _. }
    cbn [queue set_queue]. rewrite Hq.
    destruct (Z.leb _ _); auto.
  - rewrite (baseEvent_without_Intl env type payload st HI) in *.
    right; left. eexists _, _. split; [exact Hv|reflexivity].
Qed.

Lemma inflight_transport st st' :
  transport_view st' = transport_view st -> inflight_ok st -> inflight_ok st'.
Proof.
  unfold transport_view, inflight_ok. intros H.
  by injection H as _ -> -> _.
Qed.

Lemma inflight_push st st1 q :
  script_view st1 = script_view st -> inflight_ok st ->
  inflight_ok (set_queue q st1).
Proof.
  intros Hv. apply transport_script_view in Hv.
  unfold transport_view in Hv. injection Hv as _ Hf Hp _.
  unfold inflight_ok. cbn [pending flushing set_queue]. by rewrite Hf, Hp.
Qed.

Lemma inflight_idle st :
  inflight_ok st -> flushing st = false -> pending st = [].
Proof.
  intros [_ H] Hf. destruct (pending st); [reflexivity|].
  rewrite H in Hf; [discriminate|done].
Qed.

Lemma inflight_flush env st : inflight_ok st -> inflight_ok (fst (flush env st)).
Proof.
  intros Hi. unfold flush.
  destruct (flush_skips env st) eqn:Hs; [exact Hi|].
  assert (Hf : flushing st = false).
  { unfold flush_skips in Hs. apply orb_false_iff in Hs as [Hs _].
    by apply orb_false_iff in Hs as [_ ?]. }
  pose proof (inflight_idle st Hi Hf) as Hp.
  unfold flush_take, flush_send, inflight_ok.
  destruct (has_Blob env), (beacon_ok env), (has_fetch env);
    cbn [fst snd negb pending flushing set_pending set_wire set_queue
         set_flushing]; rewrite ?Hp; cbn [app length]; split; (lia || done).
Qed.

Lemma inflight_settle i o st : inflight_ok st -> inflight_ok (settle i o st).
Proof.
  intros [Hl Hf]. unfold settle.
  destruct (pending st !! i) as [batch|] eqn:Hb; [|by split].
  destruct (pending st) as [|b [|b' rest]]; simpl in Hl, Hb;
    [discriminate| |lia].
  destruct i as [|i]; [|discriminate].
  unfold inflight_ok.
  destruct o; cbn [pending flushing set_pending set_queue set_flushing delete];
    simpl; split; (lia || done).
Qed.

Lemma inflight_enqueue env type payload st :
  inflight_ok st -> inflight_ok (fst (enqueue env type payload st)).
Proof.
  intros Hi.
  destruct (enqueue_cases env type payload st)
    as [-> | [(st1 & e & Hv & ->) | (st1 & ev & Hv & _ & _ & [-> | ->])]];
    cbn [fst].
  - exact Hi.
  - eapply inflight_transport; [by apply transport_script_view|exact Hi].
  - apply inflight_flush. by eapply inflight_push.
  - by eapply inflight_push.
Qed.

Lemma inflight_step env a st :
  inflight_ok st -> inflight_ok (fst (step env a st)).
Proof.
  intros Hi. destruct a as [ty p| |i o|ty p|ty p| |]; cbn [step fst].
  - by apply inflight_enqueue.
  - by apply inflight_flush.
  - by apply inflight_settle.
  - by apply inflight_enqueue.
  - unfold CC_EMBED_track.
    pose proof (inflight_enqueue env (if nonempty ty then ty else "custom")
                  (coerce_payload p) st Hi) as He.
    destruct (enqueue _ _ _ st) as [st1 [|e]]; exact He.
  - eapply inflight_transport; [apply transport_ls_set|exact Hi].
  - eapply inflight_transport; [apply transport_touchSession|exact Hi].
Qed.

(** X11.  The flag is a working mutex: on a page that starts with no request
    pending, any sequence of calls, flushes and request outcomes leaves at
    most one fallback request pending at any time, and the flag is set
    whenever one is. *)
Theorem one_request_in_flight (turns : list (Env * Action)) (st : State) :
  inflight_ok st -> inflight_ok (run turns st).
Proof.
  revert st. induction turns as [|[env a] rest IH]; intros st Hi; [exact Hi|].
  simpl. apply IH. by apply inflight_step.
Qed.

Lemma one_request_in_flight_witness :
  inflight_ok (run [(Demo.env0, Flush); (Demo.env0, Enqueue "hb" (JObj []));
                    (Demo.env0, Flush)] Demo.st_one).
Proof.
  apply (one_request_in_flight _ Demo.st_one).
  split; [vm_compute; lia|]. vm_compute. intros H. destruct (H eq_refl).
Defined.

Lemma beaconed_app (a b : list Request) :
  beaconed (a ++ b) = beaconed a ++ beaconed b.
Proof. unfold beaconed. apply flat_map_app. Qed.

Lemma ledger_transport st st' :
  transport_view st' = transport_view st -> ledger st' = ledger st.
Proof.
  unfold transport_view, ledger. intros H.
  by injection H as -> _ -> ->.
Qed.

Lemma ledger_push st st1 ev :
  script_view st1 = script_view st ->
  ledger (set_queue (queue st ++ [ev]) st1) = ledger st ++ [ev].
Proof.
  intros Hv. apply transport_script_view in Hv.
  unfold transport_view in Hv. injection Hv as _ _ Hp Hw.
  unfold ledger. cbn [wire pending queue set_queue].
  by rewrite Hp, Hw, !app_assoc.
Qed.

Lemma ledger_flush env st :
  inflight_ok st -> has_Blob env = true ->
  beacon_ok env = true \/ has_fetch env = true ->
  ledger (fst (flush env st)) = ledger st.
Proof.
  intros Hi Hb Hsend.
  destruct (flush_skips env st) eqn:Hs; [by rewrite flush_noop|].
  assert (Hf : flushing st = false).
  { unfold flush_skips in Hs. apply orb_false_iff in Hs as [Hs _].
    by apply orb_false_iff in Hs as [_ ?]. }
  pose proof (inflight_idle st Hi Hf) as Hp.
  destruct (beacon_ok env) eqn:Hk.
  - rewrite flush_beacon by assumption. unfold ledger.
    cbn [fst wire pending queue set_flushing set_wire set_queue].
    rewrite beaconed_app, Hp. simpl. by rewrite !app_nil_r.
  - destruct Hsend as [?|Hfe]; [discriminate|].
    rewrite flush_fallback by assumption. unfold ledger.
    cbn [fst wire pending queue set_pending set_flushing set_wire set_queue].
    rewrite beaconed_app, Hp. simpl. by rewrite !app_nil_r.
Qed.

Lemma ledger_settle_error i st :
  inflight_ok st -> ledger (settle i NetworkError st) = ledger st.
Proof.
  intros [Hl _]. unfold settle.
  destruct (pending st !! i) as [batch|] eqn:Hb; [|reflexivity].
  destruct (pending st) as [|b [|b' rest]] eqn:Hp; simpl in Hl, Hb;
    [discriminate| |lia].
  destruct i as [|i]; [|discriminate]. injection Hb as ->.
  unfold ledger.
  cbn [wire pending queue set_pending set_queue set_flushing delete].
  rewrite Hp. simpl. by rewrite app_nil_r.
Qed.

Lemma ledger_enqueue env type payload st :
  inflight_ok st -> has_Blob env = true ->
  beacon_ok env = true \/ has_fetch env = true ->
  exists new,
    ledger (fst (enqueue env type payload st)) = ledger st ++ new
    /\ sublist (produced new) [(type, payload)].
Proof.
  intros Hi Hb Hsend.
  destruct (enqueue_cases env type payload st)
    as [-> | [(st1 & e & Hv & ->) | (st1 & ev & Hv & Ht & Hp & [-> | ->])]];
    cbn [fst].
  - exists []. rewrite app_nil_r. split; [reflexivity|apply sublist_nil_l].
  - exists []. rewrite app_nil_r. split; [|apply sublist_nil_l].
    by apply ledger_transport, transport_script_view.
  - exists [ev]. rewrite ledger_flush; try assumption.
    + split; [by apply ledger_push|]. simpl. by rewrite Ht, Hp.
    + by eapply inflight_push.
  - exists [ev]. split; [by apply ledger_push|]. simpl. by rewrite Ht, Hp.
Qed.

Lemma ledger_step env a st :
  inflight_ok st -> benign (env, a) ->
  exists new,
    ledger (fst (step env a st)) = ledger st ++ new
    /\ sublist (produced new) (asked [(env, a)]).
Proof.
  intros Hi (Hb & Hsend & Hresp). cbn [fst snd] in *.
  unfold asked. cbn [flat_map snd]. rewrite app_nil_r.
  destruct a as [ty p| |i o|ty p|ty p| |]; cbn [step fst].
  - by apply ledger_enqueue.
  - exists []. rewrite app_nil_r. split; [|apply sublist_nil_l].
    by apply ledger_flush.
  - exists []. rewrite app_nil_r. split; [|apply sublist_nil_l].
    destruct o as [|status]; [by apply ledger_settle_error|].
    by destruct (Hresp i status).
  - by apply ledger_enqueue.
  - unfold CC_EMBED_track.
    destruct (ledger_enqueue env (if nonempty ty then ty else "custom")
                (coerce_payload p) st Hi Hb Hsend) as (new & Hl & Hs).
    exists new. split; [|exact Hs].
    destruct (enqueue _ _ _ st) as [st1 [|e]]; exact Hl.
  - exists []. rewrite app_nil_r. split; [|apply sublist_nil_l].
    apply ledger_transport, transport_ls_set.
  - exists []. rewrite app_nil_r. split; [|apply sublist_nil_l].
    apply ledger_transport, transport_touchSession.
Qed.

Lemma asked_cons turn rest : asked (turn :: rest) = asked [turn] ++ asked rest.
Proof. unfold asked. cbn [flat_map]. by rewrite app_nil_r. Qed.

(** X12.  Nothing is lost, duplicated or reordered while the only failures are
    network errors.  Take the records delivered by beacon, then those of the
    pending request, then the queue: over any run in which the platform can
    send (it has [Blob], and [sendBeacon] accepts or [fetch] exists) and no
    HTTP response arrives, this sequence only grows at its end, and what is
    added is, in call order, the type and payload of some of the tracking
    calls of the run. *)
Theorem ledger_grows_at_end (turns : list (Env * Action)) (st : State) :
  inflight_ok st -> Forall benign turns ->
  exists new,
    ledger (run turns st) = ledger st ++ new
    /\ sublist (produced new) (asked turns).
Proof.
  revert st. induction turns as [|[env a] rest IH]; intros st Hi Hall.
  - exists []. rewrite app_nil_r. split; [reflexivity|apply sublist_nil_l].
  - apply Forall_cons in Hall as [Hb Hall].
    destruct (ledger_step env a st Hi Hb) as (new1 & Hl1 & Hs1).
    destruct (IH (fst (step env a st)) (inflight_step env a st Hi) Hall)
      as (new2 & Hl2 & Hs2).
    exists (new1 ++ new2). rewrite (asked_cons (env, a) rest). split.
    + cbn [run]. by rewrite Hl2, Hl1, app_assoc.
    + unfold produced. rewrite map_app. by apply sublist_app.
Qed.

Lemma ledger_grows_at_end_witness :
  exists new,
    ledger (run Pages.retry_run Demo.st0) = ledger Demo.st0 ++ new
    /\ sublist (produced new) (asked Pages.retry_run).
Proof.
  apply (ledger_grows_at_end Pages.retry_run Demo.st0).
  - split; [simpl; lia|]. intros H. destruct (H eq_refl).
  - unfold Pages.retry_run.
    repeat (apply Forall_cons; split;
            [split; [reflexivity|];
             split; [first [right; reflexivity | left; reflexivity]|];
             intros i status; discriminate|]).
    apply Forall_nil_2.
Defined.



(** ** A flush that throws *)

Lemma stuck_enqueue env type payload st :
  flushing st = true -> pending st = [] ->
  flushing (fst (enqueue env type payload st)) = true
  /\ pending (fst (enqueue env type payload st)) = []
  /\ wire (fst (enqueue env type payload st)) = wire st.
Proof.
  intros Hf Hp.
  destruct (enqueue_cases env type payload st)
    as [-> | [(st1 & e & Hv & ->) | (st1 & ev & Hv & _ & _ & He)]];
    cbn [fst]; [done| |];
    apply transport_script_view in Hv; unfold transport_view in Hv;
    injection Hv as _ Hfl Hpe Hw.
  - by rewrite Hfl, Hpe, Hw.
  - assert (Hs : flush env (set_queue (queue st ++ [ev]) st1)
                 = (set_queue (queue st ++ [ev]) st1, Done)).
    { apply flush_noop, flush_skips_iff. right; left.
      cbn [flushing set_queue]. congruence. }
    destruct He as [-> | ->]; rewrite ?Hs;
      cbn [fst flushing pending wire set_queue]; by rewrite Hfl, Hpe, Hw.
Qed.

Lemma stuck_step env a st :
  flushing st = true -> pending st = [] ->
  flushing (fst (step env a st)) = true
  /\ pending (fst (step env a st)) = []
  /\ wire (fst (step env a st)) = wire st.
Proof.
  intros Hf Hp. destruct a as [ty p| |i o|ty p|ty p| |]; cbn [step fst].
  - by apply stuck_enqueue.
  - rewrite flush_noop; [done|]. apply flush_skips_iff. by right; left.
  - unfold settle. rewrite Hp. by destruct i.
  - by apply stuck_enqueue.
  - unfold CC_EMBED_track.
    pose proof (stuck_enqueue env (if nonempty ty then ty else "custom")
                  (coerce_payload p) st Hf Hp) as He.
    destruct (enqueue _ _ _ st) as [st1 [|e]]; exact He.
  - pose proof (transport_ls_set env CONSENT_KEY (SBool true) st) as Hv.
    unfold API_consentGranted, transport_view in *.
    injection Hv as _ -> -> ->. done.
  - pose proof (transport_touchSession env st) as Hv.
    unfold transport_view in Hv. injection Hv as _ -> -> ->. done.
Qed.

Lemma stuck_run turns st :
  flushing st = true -> pending st = [] ->
  flushing (run turns st) = true /\ wire (run turns st) = wire st.
Proof.
  revert st. induction turns as [|[env a] rest IH]; intros st Hf Hp; [done|].
  destruct (stuck_step env a st Hf Hp) as (Hf' & Hp' & Hw').
  cbn [run]. destruct (IH _ Hf' Hp') as [Hf2 Hw2]. split; congruence.
Qed.

(** X14.  A flush that cannot build or send its request ends delivery for good.
    When [Blob] does not exist, or [sendBeacon] does not accept and [fetch]
    does not exist, [flush] throws after it has set the flag and emptied the
    queue: the batch is in no queue and in no request, and since nothing is
    pending to clear the flag, it stays set and nothing is sent in any later
    run of the page. *)
Theorem flush_throw_disables_delivery (env : Env) (st : State) :
  flush_skips env st = false -> pending st = [] ->
  has_Blob env = false
  \/ (beacon_ok env = false /\ has_fetch env = false) ->
  (exists e, snd (flush env st) = Thrown e)
  /\ queue (fst (flush env st)) = []
  /\ wire (fst (flush env st)) = wire st
  /\ forall turns : list (Env * Action),
       flushing (run turns (fst (flush env st))) = true
       /\ wire (run turns (fst (flush env st))) = wire st.
Proof.
  intros Hs Hp Hbad. rewrite flush_runs by exact Hs.
  assert (Hshape :
    exists e, flush_send env (queue st) (set_queue [] (set_flushing true st))
              = (set_queue [] (set_flushing true st), Thrown e)).
  { unfold flush_send. destruct Hbad as [-> | [-> ->]]; [by eexists|].
    destruct (has_Blob env); by eexists. }
  destruct Hshape as [e ->]. cbn [fst snd].
  split; [by exists e|]. split; [reflexivity|]. split; [reflexivity|].
  intros turns.
  by apply (stuck_run turns (set_queue [] (set_flushing true st))).
Qed.

Lemma flush_throw_disables_delivery_witness :
  queue (fst (flush Pages.env_noblob Demo.st_one)) = []
  /\ wire (run Pages.calls_after_failure (fst (flush Pages.env_noblob Demo.st_one)))
     = wire Demo.st_one.
Proof.
  destruct (flush_throw_disables_delivery Pages.env_noblob Demo.st_one)
    as (_ & Hq & _ & Hrun); [reflexivity|reflexivity|by left|].
  split; [exact Hq|]. apply Hrun.
Defined.

(** ** What can change the gate *)

Lemma gate_flush env st : gate_view (fst (flush env st)) = gate_view st.
Proof.
  unfold flush. destruct (flush_skips env st); [reflexivity|].
  unfold flush_take, flush_send.
  by destruct (has_Blob env), (beacon_ok env), (has_fetch env).
Qed.

Lemma gate_settle i o st : gate_view (settle i o st) = gate_view st.
Proof.
  unfold settle. destruct (pending st !! i); [|reflexivity]. by destruct o.
Qed.

Lemma gate_enqueue env type payload st :
  gate_view (fst (enqueue env type payload st)) = gate_view st.
Proof.
  destruct (enqueue_cases env type payload st)
    as [-> | [(st1 & e & Hv & ->) | (st1 & ev & Hv & _ & _ & [-> | ->])]];
    cbn [fst]; try reflexivity; try rewrite gate_flush;
    by apply gate_script_view in Hv.
Qed.

Lemma gate_ls_set env k v st :
  k <> CONSENT_KEY -> gate_view (ls_set env k v st) = gate_view st.
Proof. intros Hk. by apply gate_script_view, view_ls_set. Qed.

Lemma gate_touchSession env st :
  gate_view (touchSession env st) = gate_view st.
Proof.
  unfold touchSession.
  destruct (ls_get env st SID_KEY None) as [v|]; [|reflexivity].
  destruct (stored_truthy v); [|reflexivity].
  destruct v; by apply gate_ls_set.
Qed.

Lemma gate_step env a st :
  a <> ConsentGranted \/ storage st !! CONSENT_KEY = Some (SBool true) ->
  gate_view (fst (step env a st)) = gate_view st.
Proof.
  intros Ha. destruct a as [ty p| |i o|ty p|ty p| |]; cbn [step fst].
  - apply gate_enqueue.
  - apply gate_flush.
  - apply gate_settle.
  - apply gate_enqueue.
  - unfold CC_EMBED_track.
    pose proof (gate_enqueue env (if nonempty ty then ty else "custom")
                  (coerce_payload p) st) as He.
    destruct (enqueue _ _ _ st) as [st1 [|e]]; exact He.
  - destruct Ha as [Ha|Ha]; [done|].
    unfold API_consentGranted, ls_set, gate_view.
    destruct (ls_ok env); [|reflexivity]. cbn [cfg dnt storage set_storage].
    by rewrite lookup_insert_eq, Ha.
  - apply gate_touchSession.
Qed.

(** X15.  The answer of the gate can change in one way only.  Over a run without
    [consentGranted], and over any run once consent is stored, the
    configuration, the do-not-track sample and the stored consent stay what
    they were, so the gate gives the same answer after the run as before it,
    for any environment; in particular stored consent is never withdrawn. *)
Theorem gate_stable_over_runs (turns : list (Env * Action)) (st : State) :
  Forall (fun turn => snd turn <> ConsentGranted) turns
  \/ storage st !! CONSENT_KEY = Some (SBool true) ->
  gate_view (run turns st) = gate_view st
  /\ (forall env, readyToTrack env (run turns st) = readyToTrack env st)
  /\ storage (run turns st) !! CONSENT_KEY = storage st !! CONSENT_KEY.
Proof.
  intros H.
  assert (Hg : gate_view (run turns st) = gate_view st).
  { revert st H. induction turns as [|[env a] rest IH]; intros st H;
      [reflexivity|].
    assert (Hs : gate_view (fst (step env a st)) = gate_view st).
    { apply gate_step. destruct H as [H|H]; [|by right].
      apply Forall_cons in H as [H _]. by left. }
    cbn [run]. rewrite IH; [exact Hs|].
    destruct H as [H|H].
    - apply Forall_cons in H as [_ H]. by left.
    - right. unfold gate_view in Hs. injection Hs as _ _ Hk. congruence. }
  split; [exact Hg|]. split.
  - intros env. by apply readyToTrack_gate.
  - unfold gate_view in Hg. by injection Hg as _ _ ->.
Qed.

Lemma gate_stable_over_runs_witness :
  readyToTrack Demo.env0 (run Pages.retry_run Demo.st_consent)
  = readyToTrack Demo.env0 Demo.st_consent.
Proof.
  destruct (gate_stable_over_runs Pages.retry_run Demo.st_consent)
    as (_ & H & _); [|apply H].
  left. unfold Pages.retry_run.
  repeat (apply Forall_cons; split; [discriminate|]). apply Forall_nil_2.
Defined.

(** ** The referrer trail over page loads *)

Lemma adjacent_distinct_snoc (l : list string) (r : string) :
  adjacent_distinct l -> last l <> Some r -> adjacent_distinct (l ++ [r]).
Proof.
  induction l as [|a [|b l] IH]; intros Hd Hl; [done| |].
  - simpl in *. split; [congruence|done].
  - destruct Hd as [Hab Hd]. split; [exact Hab|].
    apply IH; [exact Hd|exact Hl].
Qed.

Lemma adjacent_distinct_tail (l : list string) :
  adjacent_distinct l -> adjacent_distinct (tail l).
Proof. destruct l as [|a [|b l]]; simpl; tauto. Qed.

Lemma trail_accepts_true ref (trail : list string) :
  trail_accepts ref trail = true -> ref <> "" /\ last trail <> Some ref.
Proof.
  unfold trail_accepts. intros H. apply andb_true_iff in H as [Hn H].
  split; [by apply nonempty_true|].
  apply orb_true_iff in H as [H|H].
  - apply Nat.eqb_eq in H. by destruct trail.
  - by apply negb_true_iff, bool_decide_eq_false in H.
Qed.

Lemma trail_append_ok ref (trail : list string) :
  trail_ok trail -> trail_ok (trail_append ref trail).
Proof.
  intros (Hlen & Hne & Hd). unfold trail_append.
  destruct (trail_accepts ref trail) eqn:Ha; [|done].
  apply trail_accepts_true in Ha as [Hr Hl].
  split; [by apply trail_push_length|].
  assert (Hne' : Forall (fun r => r <> "") (trail ++ [ref])).
  { apply Forall_app. split; [exact Hne|]. by apply Forall_singleton. }
  pose proof (adjacent_distinct_snoc trail ref Hd Hl) as Hd'.
  unfold trail_push. destruct (Nat.ltb 5 (length (trail ++ [ref]))).
  - split; [|by apply adjacent_distinct_tail].
    destruct (trail ++ [ref]); [done|]. by apply Forall_cons in Hne' as [_ ?].
  - by split.
Qed.

(** X18.  The shape of the trail is kept by every page load: a trail of at most
    five entries, none empty and no two neighbours equal, is one again after
    any sequence of loads, whatever their referrers; this holds in
    particular for every trail grown from the empty one. *)
Theorem trail_shape_kept (refs : list string) (trail : list string) :
  trail_ok trail -> trail_ok (trail_after refs trail).
Proof.
  revert trail. induction refs as [|r refs IH]; intros trail Hok; [exact Hok|].
  unfold trail_after. cbn [foldl]. apply IH. by apply trail_append_ok.
Qed.

Lemma trail_shape_kept_witness :
  trail_ok (trail_after ["a"; "a"; ""; "b"; "a"; "c"; "d"; "e"; "f"] []).
Proof.
  apply (trail_shape_kept _ []).
  split; [simpl; lia|]. split; [apply Forall_nil_2|exact I].
Defined.





(** ** The query string and the UTM parameters *)

Lemma str_app_cons (c : ascii) (a b : string) :
  (String c a ++ b)%string = String c (a ++ b)%string.
Proof. reflexivity. Qed.

Lemma str_app_nil (b : string) : (EmptyString ++ b)%string = b.
Proof. reflexivity. Qed.

Lemma split_on_clean sep (s : string) :
  occurs sep s = false -> split_on sep s = [s].
Proof.
  induction s as [|c s IH]; [reflexivity|]. cbn [occurs split_on].
  intros H. apply orb_false_iff in H as [Hc Hs].
  by rewrite Hc, (IH Hs).
Qed.

Lemma split_on_app sep (x rest : string) :
  occurs sep x = false ->
  split_on sep (x ++ String sep rest)%string = x :: split_on sep rest.
Proof.
  induction x as [|c x IH]; intros H.
  - rewrite str_app_nil. cbn [split_on]. by rewrite Ascii.eqb_refl.
  - cbn [occurs] in H. apply orb_false_iff in H as [Hc Hx].
    rewrite str_app_cons. cbn [split_on]. by rewrite Hc, (IH Hx).
Qed.

Lemma split_on_concat sep (l : list string) :
  l <> [] -> Forall (fun s => occurs sep s = false) l ->
  split_on sep (String.concat (String sep EmptyString) l) = l.
Proof.
  induction l as [|x [|y l] IH]; intros Hne Hall; [done| |].
  - apply Forall_cons in Hall as [Hx _]. by apply split_on_clean.
  - apply Forall_cons in Hall as [Hx Hall].
    change (String.concat (String sep EmptyString) (x :: y :: l))
      with (x ++ String sep EmptyString
              ++ String.concat (String sep EmptyString) (y :: l))%string.
    rewrite str_app_cons, str_app_nil, split_on_app by exact Hx.
    f_equal. by apply IH.
Qed.

Lemma nonempty_app_cons (a : string) (c : ascii) (b : string) :
  nonempty (a ++ String c b)%string = true.
Proof. apply nonempty_true. by destruct a. Qed.

Lemma parse_item_pair (decode : string -> option string)
    (m : gmap string string) (k v : string) :
  occurs "=" k = false -> occurs "=" v = false ->
  parse_item decode (Some m) (k ++ "=" ++ v)%string
  = match decode k, decode v with
    | Some k', Some v' => Some (set_prop k' v' m)
    | _, _ => None
    end.
Proof.
  intros Hk Hv. unfold parse_item. rewrite str_app_cons, str_app_nil.
  rewrite nonempty_app_cons. cbn [negb].
  rewrite split_on_app, split_on_clean by assumption. reflexivity.
Qed.

(** X20.  The [forEach] callback on one item of the query, case by case: an empty
    item is skipped; an item without an equals sign sets its key to the
    decoded empty string; in an item with equals signs the key is what
    precedes the first and the value what lies between the first and the
    second, the rest being dropped; and once [decodeURIComponent] has
    thrown, so has the parse. *)
Theorem parse_item_cases (decode : string -> option string)
    (m : gmap string string) (k v rest : string) :
  occurs "=" k = false -> occurs "=" v = false ->
  parse_item decode (Some m) "" = Some m
  /\ (k <> "" ->
      parse_item decode (Some m) k
      = match decode k, decode "" with
        | Some k', Some v' => Some (set_prop k' v' m)
        | _, _ => None
        end)
  /\ parse_item decode (Some m) (k ++ "=" ++ v)%string
     = match decode k, decode v with
       | Some k', Some v' => Some (set_prop k' v' m)
       | _, _ => None
       end
  /\ parse_item decode (Some m) (k ++ "=" ++ v ++ "=" ++ rest)%string
     = parse_item decode (Some m) (k ++ "=" ++ v)%string
  /\ parse_item decode None (k ++ "=" ++ v)%string = None.
Proof.
  intros Hk Hv.
  pose proof (parse_item_pair decode m k v Hk Hv) as Hkv.
  split; [reflexivity|]. split; [|split; [exact Hkv|split; [|reflexivity]]].
  - intros Hne. unfold parse_item. apply nonempty_true in Hne.
    rewrite Hne. cbn [negb]. by rewrite split_on_clean.
  - rewrite Hkv. unfold parse_item.
    rewrite !str_app_cons, !str_app_nil.
    rewrite nonempty_app_cons. cbn [negb].
    rewrite split_on_app, split_on_app by assumption. reflexivity.
Qed.

Lemma parse_item_cases_witness :
  parse_item Some (Some ∅) "utm_source=news=letter"
  = parse_item Some (Some ∅) "utm_source=news"
  /\ parse_item Some (Some ∅) "flag" = Some {[ "flag" := "" ]}.
Proof.
  destruct (parse_item_cases Some ∅ "utm_source" "news" "letter")
    as (_ & _ & _ & H & _); [reflexivity|reflexivity|].
  destruct (parse_item_cases Some ∅ "flag" "" "")
    as (_ & H2 & _); [reflexivity|reflexivity|].
  split; [exact H|]. rewrite H2 by discriminate. reflexivity.
Defined.

Lemma parse_items_pairs (decode : string -> option string) (d : string -> string)
    (pairs : list (string * string)) :
  Forall (fun kv => occurs "=" (fst kv) = false /\ occurs "=" (snd kv) = false
                    /\ decode (fst kv) = Some (d (fst kv))
                    /\ decode (snd kv) = Some (d (snd kv))) pairs ->
  forall m,
    foldl (parse_item decode) (Some m)
      (map (fun kv => (fst kv ++ "=" ++ snd kv)%string) pairs)
    = Some (foldl (fun acc kv => set_prop (d (fst kv)) (d (snd kv)) acc) m pairs).
Proof.
  induction pairs as [|[k v] pairs IH]; intros Hall m; [reflexivity|].
  apply Forall_cons in Hall as [(Hk & Hv & Hdk & Hdv) Hall].
  cbn [fst snd] in *. cbn [map foldl fst snd].
  rewrite (parse_item_pair decode m k v Hk Hv), Hdk, Hdv. by apply IH.
Qed.

(** X21.  Parsing undoes building.  For a query string [?k1=v1&k2=v2&...] whose
    keys and values contain neither ampersand nor equals sign and can be
    decoded, [parseQuery] returns the map from decoded keys to decoded
    values in which a later occurrence of a key overrides an earlier one
    (and the key [__proto__] is left out), and the script's [utm] is read
    off that map. *)
Theorem parseQuery_query_of (decode : string -> option string)
    (d : string -> string) (pairs : list (string * string)) :
  Forall (fun kv => occurs "&" (fst kv) = false /\ occurs "&" (snd kv) = false
                    /\ occurs "=" (fst kv) = false
                    /\ occurs "=" (snd kv) = false
                    /\ decode (fst kv) = Some (d (fst kv))
                    /\ decode (snd kv) = Some (d (snd kv))) pairs ->
  parseQuery decode ("?" ++ query_of pairs)%string
  = Some (foldl (fun acc kv => set_prop (d (fst kv)) (d (snd kv)) acc) ∅ pairs)
  /\ utm_of_search decode ("?" ++ query_of pairs)%string
     = Some (utm_of (foldl (fun acc kv => set_prop (d (fst kv)) (d (snd kv)) acc)
                       ∅ pairs)).
Proof.
  intros Hall.
  assert (Hp : parseQuery decode ("?" ++ query_of pairs)%string
               = Some (foldl (fun acc kv => set_prop (d (fst kv)) (d (snd kv)) acc)
                         ∅ pairs)).
  { unfold parseQuery. rewrite str_app_cons, str_app_nil.
    cbn [strip_question]. rewrite Ascii.eqb_refl.
    destruct pairs as [|p pairs]; [reflexivity|].
    unfold query_of. rewrite split_on_concat.
    - apply parse_items_pairs. eapply Forall_impl; [exact Hall|].
      intros kv (_ & _ & ? & ? & ? & ?). auto.
    - discriminate.
    - apply Forall_fmap. eapply Forall_impl; [exact Hall|].
      intros kv (Hk & Hv & _). cbn.
      rewrite !occurs_app, Hk, Hv. reflexivity. }
  split; [exact Hp|]. unfold utm_of_search. by rewrite Hp.
Qed.

Lemma parseQuery_query_of_witness :
  utm_of_search Some
    ("?" ++ query_of [("utm_source", "a"); ("page", "2"); ("utm_term", "");
                      ("utm_source", "b")])%string
  = Some [("utm_source", "b")].
Proof.
  destruct (parseQuery_query_of Some (fun s => s)
              [("utm_source", "a"); ("page", "2"); ("utm_term", "");
               ("utm_source", "b")]) as [_ H].
  - repeat (apply Forall_cons; split; [repeat split|]). apply Forall_nil_2.
  - rewrite H. reflexivity.
Defined.

Lemma utm_fold_omap (q : gmap string string) (keys : list string)
    (acc : list (string * string)) :
  foldl (fun o k =>
           match q !! k with
           | Some v => if nonempty v then o ++ [(k, v)] else o
           | None => o
           end) acc keys
  = acc ++ omap (fun k =>
                   match q !! k with
                   | Some v => if nonempty v then Some (k, v) else None
                   | None => None
                   end) keys.
Proof.
  revert acc. induction keys as [|k keys IH]; intros acc.
  - by rewrite app_nil_r.
  - cbn [foldl omap list_omap]. rewrite IH.
    destruct (q !! k) as [v|]; [destruct (nonempty v)|];
      by rewrite <- ?app_assoc.
Qed.

Lemma omap_keys_sublist (q : gmap string string) (keys : list string) :
  sublist
    (map fst (omap (fun k =>
                      match q !! k with
                      | Some v => if nonempty v then Some (k, v) else None
                      | None => None
                      end) keys)) keys.
Proof.
  induction keys as [|k keys IH]; [constructor|].
  cbn [omap list_omap].
  destruct (q !! k) as [v|]; [destruct (nonempty v)|]; cbn [map fst];
    by constructor.
Qed.

(** X22.  The [utm] object holds nothing but UTM parameters: its keys are among
    the five fixed names, in the fixed order and each at most once, and a
    pair is in it exactly when the query has that key with a non-empty
    value. *)
Theorem utm_of_only_known_keys (q : gmap string string) :
  sublist (map fst (utm_of q)) UTM_KEYS
  /\ forall k v,
       (k, v) ∈ utm_of q <-> k ∈ UTM_KEYS /\ q !! k = Some v /\ v <> "".
Proof.
  unfold utm_of. rewrite utm_fold_omap, app_nil_l.
  split; [apply omap_keys_sublist|].
  intros k v. rewrite list_elem_of_omap. split.
  - intros (k' & Hin & Hf).
    destruct (q !! k') as [v'|] eqn:Hq; [|discriminate].
    destruct (nonempty v') eqn:Hn; [|discriminate].
    injection Hf as <- <-. apply nonempty_true in Hn. auto.
  - intros (Hin & Hq & Hn). exists k. split; [exact Hin|].
    apply nonempty_true in Hn. by rewrite Hq, Hn.
Qed.

(** ** A gate that stays shut *)

Lemma gate_shut_denies env st : gate_shut st -> readyToTrack env st = false.
Proof.
  unfold readyToTrack. intros [-> | [-> | ->]]; cbn [negb andb];
    [reflexivity| |]; by rewrite ?andb_false_r.
Qed.

Lemma gate_shut_static st st' :
  static_view st' = static_view st -> gate_shut st -> gate_shut st'.
Proof.
  unfold static_view, gate_shut. intros H. by injection H as -> -> _ _.
Qed.

Lemma idle_ls_set env k v st :
  k <> VID_KEY -> idle_view (ls_set env k v st) = idle_view st.
Proof.
  intros Hk. unfold ls_set, idle_view. destruct (ls_ok env); [|reflexivity].
  cbn [queue wire pending drawn storage set_storage].
  by rewrite lookup_insert_ne.
Qed.

Lemma idle_step env a st :
  gate_shut st -> pending st = [] ->
  idle_view (fst (step env a st)) = idle_view st.
Proof.
  intros Hshut Hp.
  pose proof (gate_shut_denies env st Hshut) as Hr.
  destruct a as [ty p| |i o|ty p|ty p| |]; cbn [step fst].
  - by rewrite enqueue_gate_closed.
  - rewrite flush_noop; [reflexivity|]. apply flush_skips_iff. by left.
  - unfold settle. rewrite Hp. by destruct i.
  - unfold API_track. by rewrite enqueue_gate_closed.
  - unfold CC_EMBED_track. by rewrite enqueue_gate_closed.
  - by apply idle_ls_set.
  - unfold touchSession.
    destruct (ls_get env st SID_KEY None) as [v|]; [|reflexivity].
    destruct (stored_truthy v); [|reflexivity].
    destruct v; by apply idle_ls_set.
Qed.

(** X16.  A page whose gate is shut (do-not-track on when the script was
    loaded, or no site id, or no endpoint) keeps its event pipeline silent.
    Over any sequence of calls of [enqueue], [flush], the handlers of the
    fallback request, [API.track], [CC_EMBED.track], [consentGranted] and
    [touchSession], in any environments, the gate goes on denying in every
    environment, no record is queued and no batch is sent; these calls
    draw no random value and leave the stored visitor id as it is.  A
    pageview then changes nothing, and a route change does no more than
    touch the session and arm a timer.  (The statement is about these
    calls: [currentCtx] does not test the gate.) *)
Theorem gate_shut_page_is_silent (turns : list (Env * Action)) (st : State) :
  gate_shut st -> pending st = [] ->
  (forall env, readyToTrack env (run turns st) = false)
  /\ queue (run turns st) = queue st
  /\ wire (run turns st) = wire st
  /\ drawn (run turns st) = drawn st
  /\ storage (run turns st) !! VID_KEY = storage st !! VID_KEY
  /\ (forall hash meta env,
        trackPageview hash meta env (run turns st) = (run turns st, Done))
  /\ (forall hash env_touch env,
        snd (onChange hash env_touch env (run turns st)) = Done
        /\ idle_view (fst (onChange hash env_touch env (run turns st)))
           = idle_view st).
Proof.
  intros Hshut Hp.
  assert (Hshut' : gate_shut (run turns st))
    by (eapply gate_shut_static; [apply static_run|exact Hshut]).
  split; [intros env; by apply gate_shut_denies|].
  assert (Hidle : idle_view (run turns st) = idle_view st).
  { clear Hshut'. revert st Hshut Hp.
    induction turns as [|[env a] rest IH]; intros st Hshut Hp; [reflexivity|].
    pose proof (idle_step env a st Hshut Hp) as Hs.
    cbn [run]. rewrite IH; [exact Hs| |].
    - eapply gate_shut_static; [apply static_step|exact Hshut].
    - unfold idle_view in Hs. injection Hs as _ _ Hp' _ _. congruence. }
  assert (Hp' : pending (run turns st) = [])
    by (unfold idle_view in Hidle; injection Hidle as _ _ Hp' _ _; congruence).
  assert (Hrest : queue (run turns st) = queue st
                  /\ wire (run turns st) = wire st
                  /\ drawn (run turns st) = drawn st
                  /\ storage (run turns st) !! VID_KEY = storage st !! VID_KEY)
    by (unfold idle_view in Hidle; by injection Hidle as -> -> _ -> ->).
  destruct Hrest as (Hq & Hw & Hd & Hv).
  do 4 (split; [assumption|]).
  split.
  - intros hash meta env. unfold trackPageview.
    apply enqueue_gate_closed. by apply gate_shut_denies.
  - intros hash env_touch env. unfold onChange, trackPageview.
    pose proof (idle_step env_touch TouchSession (run turns st) Hshut' Hp')
      as Ht.
    cbn [step fst] in Ht.
    assert (Hshut1 : gate_shut (touchSession env_touch (run turns st))).
    { eapply gate_shut_static; [|exact Hshut'].
      apply (static_step env_touch TouchSession). }
    rewrite enqueue_gate_closed by by apply gate_shut_denies.
    split; [reflexivity|]. cbn [fst].
    rewrite <- Hidle, <- Ht. reflexivity.
Qed.

Lemma gate_shut_page_is_silent_witness :
  wire (run ((Demo.env0, ConsentGranted) :: Pages.retry_run) Demo.st_dnt) = []
  /\ queue (run ((Demo.env0, ConsentGranted) :: Pages.retry_run) Demo.st_dnt)
     = [].
Proof.
  destruct (gate_shut_page_is_silent
              ((Demo.env0, ConsentGranted) :: Pages.retry_run) Demo.st_dnt)
    as (_ & Hq & Hw & _); [by left|reflexivity|].
  split; [exact Hw|exact Hq].
Defined.

(** X17.  On a site that requires consent nothing can be tracked while
    [localStorage] is unavailable: the stored consent cannot be read, and
    [consentGranted] cannot record it. *)
Theorem consent_needs_storage (env : Env) (st : State) :
  consentRequired (cfg st) = true -> ls_ok env = false ->
  readyToTrack env st = false
  /\ API_consentGranted env st = st
  /\ readyToTrack env (API_consentGranted env st) = false.
Proof.
  intros Hc Hls.
  assert (Hr : readyToTrack env st = false).
  { unfold readyToTrack, hasConsent, consent_granted.
    rewrite Hc, ls_get_down by assumption. cbn.
    by rewrite andb_false_r. }
  assert (Hg : API_consentGranted env st = st)
    by (unfold API_consentGranted; by apply ls_set_down).
  by rewrite Hg.
Qed.

Lemma consent_needs_storage_witness :
  readyToTrack Pages.env_nols Demo.st_consent = false
  /\ readyToTrack Pages.env_nols
       (API_consentGranted Pages.env_nols Demo.st_consent) = false.
Proof.
  destruct (consent_needs_storage Pages.env_nols Demo.st_consent)
    as (H1 & _ & H2); [reflexivity|reflexivity|].
  split; [exact H1|exact H2].
Defined.
